(** * POS Panadería: cart, checkout transaction and daily balance

    A shallow embedding of the point-of-sale engine of the application
    (component [POSTab], the modal [PanModal] and the aggregation of
    [BalanceTab]) together with the properties of its specification.

    Conventions of the embedding.
    - The amounts and quantities that the cart and the store handle are
      whole numbers ([Z]), for which [x || 0] is the identity.  Where the
      code divides or rounds ([calcPrice], the price of bread by weight) the
      embedding computes in binary64 as the code does: [Number] is the
      double of a whole number and [Math_round] is [Math.round].
    - [BalanceTab] adds up whatever the stored sales hold, so there the
      amounts are doubles ([float]) and are added in the order of the code.
    - Strings are Rocq strings, read as UTF-8; [String.prototype.trim]
      strips the white space and line terminators of ECMAScript.
    - What is proved of sums and products of doubles rests on the IEEE 754
      specification of the primitive floats ([FloatAxioms]).
    - React state is threaded explicitly: a handler maps the state [POS] to
      an optional error toast and a new state.
    - The Firestore collection [products] is a finite map from document id
      to document, the collection [sales] a list of documents; a transaction
      reads from the snapshot it started on and buffers its writes, which
      are applied together when its body returns normally. *)

From Corelib Require Import PrimFloat.
From Corelib Require SpecFloat FloatOps FloatAxioms.
From stdpp Require Import gmap strings list fin_maps sorting.
From Stdlib Require Import ZArith Lia.

Local Open Scope Z_scope.
Local Open Scope string_scope.
Local Open Scope list_scope.

(** ** Tipos *)

Module Product.
Record t := mk {
  code : string;
  name : string;
  cost : Z;
  margin : Z;
  stock : Z;
  lowThreshold : option Z
}.

(** The document after [tx.update(ref, { stock: s })]. *)
Definition with_stock (s : Z) (p : t) : t :=
  mk (code p) (name p) (cost p) (margin p) s (lowThreshold p).
End Product.

Module SaleItem.
Record t := mk {
  code : string;
  name : string;
  qty : Z;
  price : Z;
  costAtSale : option Z
}.

(** [{ ...i, qty: q }] *)
Definition with_qty (q : Z) (i : t) : t :=
  mk (code i) (name i) q (price i) (costAtSale i).

(** [{ ...i, costAtSale: c }] *)
Definition with_costAtSale (c : option Z) (i : t) : t :=
  mk (code i) (name i) (qty i) (price i) c.

Global Instance eq_dec : EqDecision t.
Proof. solve_decision. Defined.
End SaleItem.

Module UndoEntry.
(** [{ type: "add", code, qty }] *)
Record t := mk {
  type : string;
  code : string;
  qty : Z
}.
End UndoEntry.

Module Sale.
(** A document of the collection [sales] (its timestamp [at] and its
    generated id play no part in what follows). *)
Record t := mk {
  items : list SaleItem.t;
  total : Z;
  user : option string;
  localDate : option string
}.
End Sale.

(** The toasts of the point of sale that report a failure. *)
Inductive Err :=
| UnknownProduct                       (* "Código no encontrado" *)
| InsufficientStock (name : string)    (* "Stock insuficiente de <name>" *)
| ProductNotFound (code : string)      (* "Producto no encontrado: <code>" *)
| EmptyCart.                           (* "No hay productos" *)

(** ** Utils *)

(** The double nearest to a whole number: the number itself up to 2^53. *)
Definition Number (z : Z) : float :=
  FloatOps.SF2Prim
    (SpecFloat.binary_normalize FloatOps.prec FloatOps.emax z 0 false).

(** [Math.round(x)]: the integer nearest to the value of the double [x],
    halves up.  The value of a finite double is [± m × 2^e], so the
    rounding here is exact.  Infinities and NaN, which whole numbers give
    only by overflow, are not numbers of the embedding and read as 0. *)
Definition Math_round (x : float) : Z :=
  match FloatOps.Prim2SF x with
  | SpecFloat.S754_finite s m e =>
      let n := if s then Z.neg m else Z.pos m in
      if bool_decide (0 <= e) then n * 2 ^ e
      else (2 * n + 2 ^ (- e)) `div` (2 * 2 ^ (- e))
  | _ => 0
  end.

(** [Math.round(c * (1 + m / 100))] *)
Definition calcPrice (cost margin : Z) : Z :=
  let c := Number cost in
  let m := Number margin in
  Math_round (c * (1 + m / 100))%float.

(** The single-byte white space of [trim]: U+0009 to U+000D and U+0020. *)
Definition ws1 (a : Ascii.ascii) : bool :=
  let n := Ascii.nat_of_ascii a in
  ((9 <=? n) && (n <=? 13) || (n =? 32))%nat.

(** U+00A0, in UTF-8 the bytes C2 A0. *)
Definition ws2 (a b : Ascii.ascii) : bool :=
  ((Ascii.nat_of_ascii a =? 194) && (Ascii.nat_of_ascii b =? 160))%nat.

(** The white space of three bytes: U+1680 (E1 9A 80), U+2000 to U+200A
    (E2 80 80 to E2 80 8A), U+2028 and U+2029 (E2 80 A8, E2 80 A9), U+202F
    (E2 80 AF), U+205F (E2 81 9F), U+3000 (E3 80 80) and U+FEFF
    (EF BB BF). *)
Definition ws3 (a b c : Ascii.ascii) : bool :=
  let x := Ascii.nat_of_ascii a in
  let y := Ascii.nat_of_ascii b in
  let z := Ascii.nat_of_ascii c in
  ((x =? 225) && (y =? 154) && (z =? 128)
   || (x =? 226) && (y =? 128)
      && ((128 <=? z) && (z <=? 138) || (z =? 168) || (z =? 169) || (z =? 175))
   || (x =? 226) && (y =? 129) && (z =? 159)
   || (x =? 227) && (y =? 128) && (z =? 128)
   || (x =? 239) && (y =? 187) && (z =? 191))%nat.

(** Drops the characters at the head of [s] that the tests [w1], [w2] and
    [w3] recognise in one, two and three bytes. *)
Fixpoint strip (w1 : Ascii.ascii → bool) (w2 : Ascii.ascii → Ascii.ascii → bool)
    (w3 : Ascii.ascii → Ascii.ascii → Ascii.ascii → bool) (s : string) : string :=
  match s with
  | String a s1 =>
      if w1 a then strip w1 w2 w3 s1
      else
        match s1 with
        | String b s2 =>
            if w2 a b then strip w1 w2 w3 s2
            else
              match s2 with
              | String c s3 => if w3 a b c then strip w1 w2 w3 s3 else s
              | EmptyString => s
              end
        | EmptyString => s
        end
  | EmptyString => EmptyString
  end.

Definition trimStart (s : string) : string := strip ws1 ws2 ws3 s.

(** From the end the bytes of a character come last byte first. *)
Definition trimEnd (s : string) : string :=
  String.rev
    (strip ws1 (λ a b, ws2 b a) (λ a b c, ws3 c b a) (String.rev s)).

(** [String(s).trim()] *)
Definition trim (s : string) : string := trimEnd (trimStart s).

(** [new Map(products.map(p => [p.code, p]))]: a later product of the same
    code replaces an earlier one. *)
Definition productsMap (products : list Product.t) : gmap string Product.t :=
  foldl (λ m p, <[Product.code p := p]> m) ∅ products.

(** ** POSTab: the cart and its undo stack *)

Record POS := mkPOS {
  cart : list SaleItem.t;
  undoStack : list UndoEntry.t
}.

Definition initial : POS := mkPOS [] [].

Definition has_code (c : string) (i : SaleItem.t) : Prop := SaleItem.code i = c.

Global Instance has_code_dec c i : Decision (has_code c i).
Proof. unfold has_code. apply _. Defined.

(** The magic code of the bread sold by weight, which has no product. *)
Definition PAN : string := "PAN".

(** [cart.find(i => i.code === code)?.qty || 0] *)
Definition existingQty (code : string) (cart : list SaleItem.t) : Z :=
  match list_find (has_code code) cart with
  | Some (_, i) => SaleItem.qty i
  | None => 0
  end.

Definition addByCode (products : list Product.t) (code : string) (qty : Z)
    (st : POS) : option Err * POS :=
  match productsMap products !! trim code with
  | None => (Some UnknownProduct, st)
  | Some prod =>
      let existingQty := existingQty (Product.code prod) (cart st) in
      if bool_decide (existingQty + qty > Product.stock prod)
      then (Some (InsufficientStock (Product.name prod)), st)
      else
        let price := calcPrice (Product.cost prod) (Product.margin prod) in
        let prev := cart st in
        let next :=
          match list_find (has_code (Product.code prod)) prev with
          | Some (idx, it) =>
              <[idx := SaleItem.with_qty (SaleItem.qty it + qty) it]> prev
          | None =>
              SaleItem.mk (Product.code prod) (Product.name prod) qty price None
                :: prev
          end in
        (None, mkPOS next (UndoEntry.mk "add" code qty :: undoStack st))
  end.

(** [cart.reduce((acc, i) => acc + i.price * i.qty, 0)] *)
Definition total (cart : list SaleItem.t) : Z :=
  foldl (λ acc i, acc + SaleItem.price i * SaleItem.qty i) 0 cart.


(** The helper [changeQty]; no handler of this version calls it. *)
Definition changeQty (products : list Product.t) (code : string) (qty : Z)
    (st : POS) : option Err * POS :=
  match productsMap products !! code with
  | None => (None, st)
  | Some prod =>
      let q := Z.max 1 (if decide (qty = 0) then 1 else qty) in
      if bool_decide (q > Product.stock prod)
      then (Some (InsufficientStock (Product.name prod)), st)
      else
        (None,
         mkPOS ((λ i, if decide (SaleItem.code i = code)
                      then SaleItem.with_qty q i else i) <$> cart st)
               (undoStack st))
  end.

(** The [onChange] handler of the quantity field of the line rendered at
    position [idx]; [value] is [Number(e.target.value || 1)].  The handler
    replaces the line it was rendered for ([x === i]), which is the line at
    that position; there is no handler without a line. *)
Definition qtyOnChange (products : list Product.t) (idx : nat) (value : Z)
    (st : POS) : option Err * POS :=
  match cart st !! idx with
  | None => (None, st)
  | Some i =>
      let val := Z.max 1 value in
      let set := (None, mkPOS (<[idx := SaleItem.with_qty val i]> (cart st))
                              (undoStack st)) in
      if decide (SaleItem.code i ≠ PAN) then
        match productsMap products !! SaleItem.code i with
        | Some prod =>
            if bool_decide (val > Product.stock prod)
            then (Some (InsufficientStock (Product.name prod)), st)
            else set
        | None => set
        end
      else set
  end.

Definition removeItem (code : string) (st : POS) : POS :=
  mkPOS (filter (λ i, SaleItem.code i ≠ code) (cart st)) (undoStack st).

Definition cancelAll (st : POS) : POS := mkPOS [] [].

Definition undo (st : POS) : POS :=
  match undoStack st with
  | [] => st
  | last :: s =>
      if decide (UndoEntry.type last = "add") then
        let prev := cart st in
        let next :=
          match list_find (has_code (UndoEntry.code last)) prev with
          | None => prev
          | Some (idx, item) =>
              let newQty := SaleItem.qty item - UndoEntry.qty last in
              if bool_decide (newQty <= 0)
              then filter (λ i, SaleItem.code i ≠ UndoEntry.code last) prev
              else <[idx := SaleItem.with_qty newQty item]> prev
          end in
        mkPOS next s
      else mkPOS (cart st) s
  end.

(** ** PanModal *)

Inductive Mode := precio | peso.

(** [confirmar]: the price handed to [onAdd], if any.  [p] and [g] are the
    numbers read from the two fields by [parseNumberOrZero]. *)
Definition confirmar (mode : Mode) (p g pricePerKg : Z) : option Z :=
  match mode with
  | precio => if bool_decide (p > 0) then Some p else None
  | peso =>
      if bool_decide (g > 0)
      then Some (Math_round ((Number g / 1000) * Number pricePerKg)%float)
      else None
  end.

(** The [onAdd] callback that [POSTab] passes to the modal. *)
Definition onAdd (precioFinal : Z) (st : POS) : POS :=
  mkPOS (SaleItem.mk PAN "Pan" 1 precioFinal None :: cart st) (undoStack st).

Definition panConfirmar (mode : Mode) (p g pricePerKg : Z) (st : POS) : POS :=
  match confirmar mode p g pricePerKg with
  | Some precioFinal => onAdd precioFinal st
  | None => st
  end.

(** ** cobrar: the checkout transaction *)

Record DB := mkDB {
  products_col : gmap string Product.t;   (* collection "products" *)
  sales_col : list Sale.t                 (* collection "sales" *)
}.

(** The writes a transaction buffers: [tx.update(ref, { stock })] on a
    product and [tx.set(saleRef, sale)] on a new document of [sales]. *)
Inductive Write :=
| Update (ref : string) (stock : Z)
| SetSale (sale : Sale.t).

Definition apply_write (db : DB) (w : Write) : DB :=
  match w with
  | Update ref s =>
      mkDB (alter (Product.with_stock s) ref (products_col db)) (sales_col db)
  | SetSale sale => mkDB (products_col db) (sales_col db ++ [sale])
  end.

(** One attempt of [runTransaction]: the body reads documents of the
    snapshot through [tx.get] and returns the writes it buffered; a body
    that throws leaves the store as it was. *)
Definition runTransaction {E} (db : DB)
    (body : (string → option Product.t) → E + list Write) : (E + unit) * DB :=
  match body (λ ref, products_col db !! ref) with
  | inl e => (inl e, db)
  | inr writes => (inr (), foldl apply_write db writes)
  end.

(** A cart line with its document reference ([null] for the bread). *)
Definition indexed (cart : list SaleItem.t) : list (SaleItem.t * option string) :=
  (λ it, (it, if decide (SaleItem.code it ≠ PAN)
              then Some (SaleItem.code it) else None)) <$> cart.

(** The snapshots read before anything else: [None] where nothing was read,
    [Some None] for a document that does not exist. *)
Definition snaps (get : string → option Product.t)
    (ix : list (SaleItem.t * option string)) : list (option (option Product.t)) :=
  (λ e : SaleItem.t * option string,
     match e.2 with Some ref => Some (get ref) | None => None end) <$> ix.

(** The body of the callback that builds [itemsForSale], for one line. *)
Definition itemForSale (e : (SaleItem.t * option string) * option (option Product.t))
    : Err + SaleItem.t :=
  let item := e.1.1 in
  if decide (SaleItem.code item = PAN)
  then inr (SaleItem.with_costAtSale (Some 0) item)
  else
    match e.2 with
    | Some (Some p) =>
        if bool_decide (Product.stock p < SaleItem.qty item)
        then inl (InsufficientStock (Product.name p))
        else inr (SaleItem.with_costAtSale (Some (Product.cost p)) item)
    | _ => inl (ProductNotFound (SaleItem.code item))
    end.

(** [Array.prototype.map] with a callback that may throw: the first line
    that throws, in the order of the cart, ends the evaluation. *)
Fixpoint map_throw {A B} (f : A → Err + B) (l : list A) : Err + list B :=
  match l with
  | [] => inr []
  | x :: l' =>
      match f x with
      | inl e => inl e
      | inr y =>
          match map_throw f l' with
          | inl e => inl e
          | inr ys => inr (y :: ys)
          end
      end
  end.

(** The stock update of one line; a line of bread writes nothing.  (A
    tracked line without an existing snapshot does not get this far.) *)
Definition stockWrite (e : (SaleItem.t * option string) * option (option Product.t))
    : list Write :=
  let item := e.1.1 in
  if decide (SaleItem.code item ≠ PAN) then
    match e.1.2, e.2 with
    | Some ref, Some (Some p) => [Update ref (Product.stock p - SaleItem.qty item)]
    | _, _ => []
    end
  else [].

(** The callback given to [runTransaction]. *)
Definition cobrar_tx (cart : list SaleItem.t) (total : Z)
    (today userEmail : string) (get : string → option Product.t)
    : Err + list Write :=
  (* 1) refs, and read everything first *)
  let ix := indexed cart in
  let sn := snaps get ix in
  (* 2) validate and build the items *)
  match map_throw itemForSale (zip ix sn) with
  | inl e => inl e
  | inr itemsForSale =>
      (* 3) update the stocks *)
      let updates : list Write := zip ix sn ≫= stockWrite in
      (* 4) create the sale *)
      let sale :=
        Sale.mk
          ((λ i, SaleItem.mk (SaleItem.code i) (SaleItem.name i) (SaleItem.qty i)
                   (SaleItem.price i)
                   (Some (default 0 (SaleItem.costAtSale i)))) <$> itemsForSale)
          total (Some userEmail) (Some today) in
      inr (updates ++ [SetSale sale])
  end.

(** [cobrar]: the outcome (an error toast, or the sale echoed to the
    history), the state of the component and the store afterwards.
    [today] is [todayLocalDateAR()] and [userEmail] the signed-in user. *)
Definition cobrar (today userEmail : string) (db : DB) (st : POS)
    : (Err + Sale.t) * POS * DB :=
  if decide (length (cart st) = 0%nat) then (inl EmptyCart, st, db)
  else
    let total := total (cart st) in
    match runTransaction db (cobrar_tx (cart st) total today userEmail) with
    | (inl e, db') => (inl e, st, db')
    | (inr _, db') =>
        let sale :=
          Sale.mk
            ((λ i, SaleItem.with_costAtSale
                     (if decide (SaleItem.code i = PAN) then Some 0
                      else SaleItem.costAtSale i) i) <$> cart st)
            total (Some userEmail) (Some today) in
        (inr sale, mkPOS [] [], db')
    end.

(** ** BalanceTab: the balance per day *)

Module Balance.
(** A sale as [BalanceTab] reads it from the collection.  The amounts are
    the numbers that the document holds: doubles, whole or not (a cost typed
    with decimals, bread priced by hand).  Of a sale only its items and its
    [localDate] are read; an item without [costAtSale] has [None]. *)
Record Item := mkItem { price : float; qty : float; costAtSale : option float }.

Record Doc := mkDoc { items : list Item; localDate : option string }.

Record Acc := mkAcc { cost : float; profit : float; total : float }.

(** The document of a sale that holds whole numbers, as [cobrar] writes
    it for whole prices and quantities. *)
Definition readItem (i : SaleItem.t) : Item :=
  mkItem (Number (SaleItem.price i)) (Number (SaleItem.qty i))
         (Number <$> SaleItem.costAtSale i).

Definition read (s : Sale.t) : Doc :=
  mkDoc (readItem <$> Sale.items s) (Sale.localDate s).

(** A JavaScript [Map] keeps its keys in the order of their insertion. *)
Fixpoint get (key : string) (map : list (string * Acc)) : option Acc :=
  match map with
  | [] => None
  | e :: map' => if decide (e.1 = key) then Some e.2 else get key map'
  end.

(** Replaces the value held under [key]. *)
Definition put (key : string) (acc : Acc) (map : list (string * Acc))
    : list (string * Acc) :=
  (λ e, if decide (e.1 = key) then (key, acc) else e) <$> map.

(** The inner loop over the items of one sale:
    [(dayCost, dayProfit, dayTotal)]. *)
Definition day (items : list Item) : float * float * float :=
  foldl (λ '(dayCost, dayProfit, dayTotal) it,
           let costUnit := default 0%float (costAtSale it) in
           let rev := (price it * qty it)%float in
           let cost := (costUnit * qty it)%float in
           ((dayCost + cost)%float, (dayProfit + (rev - cost))%float,
            (dayTotal + rev)%float))
        (0%float, 0%float, 0%float) items.

(** One turn of the outer loop. *)
Definition step (today : string) (map : list (string * Acc)) (s : Doc)
    : list (string * Acc) :=
  let key := default today (localDate s) in
  let '(acc, map) :=
    match get key map with
    | Some acc => (acc, map)
    | None => let acc := mkAcc 0 0 0 in (acc, (map ++ [(key, acc)]))
    end in
  let '(dayCost, dayProfit, dayTotal) := day (items s) in
  put key (mkAcc (cost acc + dayCost) (profit acc + dayProfit)
                 (total acc + dayTotal)) map.

(** [(a, b) => (a[0] < b[0] ? 1 : -1)] *)
Definition cmp (a b : string * Acc) : Z :=
  if String.ltb a.1 b.1 then 1 else -1.

(** [Array.prototype.sort] as a stable insertion sort: [a] goes before
    [b] when the comparator does not answer a positive number. *)
Fixpoint insert_by {A} (cmp : A → A → Z) (x : A) (l : list A) : list A :=
  match l with
  | [] => [x]
  | y :: l' =>
      if bool_decide (cmp x y <= 0) then x :: y :: l'
      else y :: insert_by cmp x l'
  end.

Definition sort_by {A} (cmp : A → A → Z) (l : list A) : list A :=
  foldr (insert_by cmp) [] l.

(** The memo [grouped]; [today] is the date [todayLocalDateAR()] gives
    when a sale carries no [localDate]. *)
Definition grouped (today : string) (sales : list Doc)
    : list (string * Acc) :=
  sort_by cmp (foldl (step today) [] sales).
End Balance.

(** ** The states the component can be in *)

(** One event of the point of sale.  [ok] constrains the catalog snapshots
    under which the events happen.  Handlers that end in an error toast
    leave the state as it is, so they add nothing here.  The scanner adds
    one unit at a time; any positive quantity is allowed for. *)
Inductive step (ok : list Product.t → Prop) : POS → POS → Prop :=
| step_addByCode products code qty st st' :
    ok products → 0 < qty →
    addByCode products code qty st = (None, st') → step ok st st'
| step_qtyOnChange products idx value st st' :
    ok products →
    qtyOnChange products idx value st = (None, st') → step ok st st'
| step_removeItem code st : step ok st (removeItem code st)
| step_cancelAll st : step ok st (cancelAll st)
| step_undo st : step ok st (undo st)
| step_onAdd precioFinal st : step ok st (onAdd precioFinal st)
| step_cobrar today userEmail db st sale st' db' :
    cobrar today userEmail db st = (inr sale, st', db') → step ok st st'.

Definition reachable_under (ok : list Product.t → Prop) (st : POS) : Prop :=
  rtc (step ok) initial st.

(** Reachable under any catalog whatsoever. *)
Definition reachable : POS → Prop := reachable_under (λ _, True).

(** A catalog in which no product carries the code of the bread. *)
Definition no_PAN_product (products : list Product.t) : Prop :=
  productsMap products !! PAN = None.

(** ** Notions used in the statements *)

(** *** The cart *)

(** The codes of the tracked lines, in the order of the cart. *)
Definition tracked_codes (cart : list SaleItem.t) : list string :=
  filter (λ c, c ≠ PAN) (SaleItem.code <$> cart).


Definition positive_qty (i : SaleItem.t) : Prop := 0 < SaleItem.qty i.

(** [Σ price × qty], the total written as a sum over the lines. *)
Definition sum_lines (cart : list SaleItem.t) : Z :=
  foldr (λ i acc, SaleItem.price i * SaleItem.qty i + acc) 0 cart.

(** The line that [addByCode] makes for a product not yet in the cart. *)
Definition newLine (prod : Product.t) (qty : Z) : SaleItem.t :=
  SaleItem.mk (Product.code prod) (Product.name prod) qty
    (calcPrice (Product.cost prod) (Product.margin prod)) None.

(** [s] begins with a character that the tests recognise. *)
Definition headws (w1 : Ascii.ascii → bool) (w2 : Ascii.ascii → Ascii.ascii → bool)
    (w3 : Ascii.ascii → Ascii.ascii → Ascii.ascii → bool) (s : string) : bool :=
  match s with
  | String a s1 =>
      w1 a ||
      match s1 with
      | String b s2 =>
          w2 a b || match s2 with String c _ => w3 a b c | EmptyString => false end
      | EmptyString => false
      end
  | EmptyString => false
  end.

(** A string that does not begin with white space. *)
Definition clean (s : string) : Prop := headws ws1 ws2 ws3 s = false.

(** *** The checkout *)

(** What the callback sees of one line: the line, its reference and the
    snapshot read for it. *)
Definition entry (get : string → option Product.t) (it : SaleItem.t)
    : (SaleItem.t * option string) * option (option Product.t) :=
  ((it, if decide (SaleItem.code it ≠ PAN) then Some (SaleItem.code it) else None),
   if decide (SaleItem.code it ≠ PAN) then Some (get (SaleItem.code it)) else None).

(** The copy of a line that [tx.set] writes into the sale. *)
Definition stamped (i : SaleItem.t) : SaleItem.t :=
  SaleItem.mk (SaleItem.code i) (SaleItem.name i) (SaleItem.qty i)
    (SaleItem.price i) (Some (default 0 (SaleItem.costAtSale i))).

(** The stock updates of a cart, in the order of its lines. *)
Definition updates (get : string → option Product.t) (cart : list SaleItem.t)
    : list Write :=
  (entry get <$> cart) ≫= stockWrite.

(** The sale that a successful checkout writes. *)
Definition saleDoc (itemsForSale : list SaleItem.t) (tot : Z)
    (today userEmail : string) : Sale.t :=
  Sale.mk (stamped <$> itemsForSale) tot (Some userEmail) (Some today).

(** The product of a tracked line is not in the store. *)
Definition missing (db : DB) (line : SaleItem.t) : Prop :=
  SaleItem.code line ≠ PAN ∧ products_col db !! SaleItem.code line = None.

(** The product of a tracked line has less stock than the line asks for. *)
Definition short (db : DB) (line : SaleItem.t) : Prop :=
  SaleItem.code line ≠ PAN ∧
  ∃ p, products_col db !! SaleItem.code line = Some p ∧
       Product.stock p < SaleItem.qty line.

(** *** The balance *)

(** Later dates first. *)
Definition later (a b : string * Balance.Acc) : Prop := strict String.le b.1 a.1.

(** The revenue and the cost of one item, as the loop computes them. *)
Definition revenue (it : Balance.Item) : float :=
  (Balance.price it * Balance.qty it)%float.

Definition costOf (it : Balance.Item) : float :=
  (default 0%float (Balance.costAtSale it) * Balance.qty it)%float.

(** [f] over the items, added from 0 in the order of the items. *)
Definition sum_left (f : Balance.Item → float) (items : list Balance.Item) : float :=
  foldl (λ a it, (a + f it)%float) 0%float items.

(** The day under which a sale is counted. *)
Definition day_of (today : string) (s : Balance.Doc) : string :=
  default today (Balance.localDate s).

(** The sales of the day [date], in the order of the list. *)
Definition on_day (today date : string) (sales : list Balance.Doc)
    : list Balance.Doc :=
  filter (λ s, day_of today s = date) sales.

(** An accumulator after one more sale: the cost, the profit and the
    revenue of the sale, each summed over its items, are added to it. *)
Definition add_sale (acc : Balance.Acc) (s : Balance.Doc) : Balance.Acc :=
  Balance.mkAcc
    (Balance.cost acc + sum_left costOf (Balance.items s))
    (Balance.profit acc
     + sum_left (λ it, (revenue it - costOf it)%float) (Balance.items s))
    (Balance.total acc + sum_left revenue (Balance.items s)).

Definition zero : Balance.Acc := Balance.mkAcc 0 0 0.

(** The row of the day [date]: its sales added one after the other. *)
Definition row (today date : string) (sales : list Balance.Doc) : Balance.Acc :=
  foldl add_sale zero (on_day today date sales).

(** A sale of one item of bread, which [cobrar] writes with a cost of 0. *)
Definition oneItem (date : option string) (price : float) : Balance.Doc :=
  Balance.mkDoc [Balance.mkItem price 1 (Some 0%float)] date.

(** *** Scenarios *)

(** Scenario A: a product of cost 100, margin 50 and stock 10, of which 3
    units are added to the empty cart. *)
Definition productA (name : string) : Product.t :=
  Product.mk "001" name 100 50 10 None.

Definition dbA (name : string) : DB := mkDB {[ "001" := productA name ]} [].

Definition cartA (name : string) : POS :=
  (addByCode [productA name] "001" 3 initial).2.

(** Scenario C: the store holds 1 unit; the cart, built on a snapshot that
    still showed 5, asks for 3. *)
Definition dbC : DB :=
  mkDB {[ "001" := Product.mk "001" "Medialuna" 100 50 1 None ]} [].

Definition cartC : POS :=
  (addByCode [Product.mk "001" "Medialuna" 100 50 5 None] "001" 3 initial).2.

(** Scenario D: 250 g of bread at 3200 the kilo. *)
Definition cartD : POS := panConfirmar peso 0 250 3200 initial.

(** A product that happens to carry the code PAN: it is scanned, then a
    line of bread is added. *)
Definition lactal : Product.t := Product.mk "PAN" "Pan lactal" 100 50 5 None.

Definition cartPAN : POS := onAdd 800 (addByCode [lactal] "PAN" 1 initial).2.

(** ** StockTab, SettingsTab and the catalog snapshot *)

(** The fields that the inputs of the product table edit. *)
Inductive NumField := f_cost | f_margin | f_stock | f_lowThreshold.

(** [{ [field]: v }] merged into a product document. *)
Definition set_field (field : NumField) (v : Z) (p : Product.t) : Product.t :=
  match field with
  | f_cost =>
      Product.mk (Product.code p) (Product.name p) v (Product.margin p)
        (Product.stock p) (Product.lowThreshold p)
  | f_margin =>
      Product.mk (Product.code p) (Product.name p) (Product.cost p) v
        (Product.stock p) (Product.lowThreshold p)
  | f_stock => Product.with_stock v p
  | f_lowThreshold =>
      Product.mk (Product.code p) (Product.name p) (Product.cost p)
        (Product.margin p) (Product.stock p) (Some v)
  end.

(** [updateField(code, field, value)] as the table calls it: [value] is the
    text of the input, [None] when it is empty, and [Number(value || 0)] is
    stored.  [updateDoc] writes nothing when the document does not exist. *)
Definition updateField (code : string) (field : NumField) (value : option Z)
    (db : DB) : DB :=
  mkDB (alter (set_field field (default 0 value)) code (products_col db))
       (sales_col db).

(** The row of a product is shown in red:
    [p.stock <= (p.lowThreshold ?? 999999)]. *)
Definition rowLow (p : Product.t) : Prop :=
  Product.stock p <= default 999999 (Product.lowThreshold p).

(** [p.lowThreshold ?? low] *)
Definition threshold (low : Z) (p : Product.t) : Z :=
  default low (Product.lowThreshold p).

(** [(a, b) => (a.stock - (a.lowThreshold ?? low)) - (b.stock - (b.lowThreshold ?? low))] *)
Definition lowCmp (low : Z) (a b : Product.t) : Z :=
  (Product.stock a - threshold low a) - (Product.stock b - threshold low b).

(** The list of the products with low stock that [SettingsTab] computes
    from the documents [arr] of a snapshot. *)
Definition lowProducts (low : Z) (arr : list Product.t) : list Product.t :=
  let list := filter (λ p, Product.stock p <= threshold low p) arr in
  Balance.sort_by (lowCmp low) list.

(** The documents of the collection [products], as a snapshot yields them. *)
Definition docs (db : DB) : list Product.t := (map_to_list (products_col db)).*2.

(** [useProducts]: the documents sorted by name; [localeCompare] is the
    collation of the browser. *)
Definition useProducts (localeCompare : string → string → Z) (db : DB)
    : list Product.t :=
  Balance.sort_by (λ a b, localeCompare (Product.name a) (Product.name b)) (docs db).

(** Every product document carries its own id in the field [code], as
    [addProduct] and the import write it. *)
Definition store_wf (db : DB) : Prop :=
  ∀ id p, products_col db !! id = Some p → Product.code p = id.

(** *** Further notions *)

(** A line that the product map [m] can serve. *)
Definition fits (m : gmap string Product.t) (line : SaleItem.t) : Prop :=
  SaleItem.code line ≠ PAN →
  ∃ p, m !! SaleItem.code line = Some p ∧ SaleItem.qty line <= Product.stock p.

(** What a line of the cart costs the shop, at the costs the store holds:
    nothing for the bread, the cost of the product times the quantity for a
    tracked line. *)
Definition cost_of_line (db : DB) (line : SaleItem.t) : Z :=
  if decide (SaleItem.code line = PAN) then 0
  else default 0 (Product.cost <$> products_col db !! SaleItem.code line)
       * SaleItem.qty line.

(** A store with two products, one of them below its own threshold. *)
Definition dbLow : DB :=
  mkDB {[ "001" := Product.mk "001" "Pan dulce" 100 50 3 (Some 5);
          "002" := Product.mk "002" "Medialuna" 40 100 20 None ]} [].

(** *** Whole numbers as doubles *)

(** The IEEE 754 description of the double of a whole number. *)
Definition SFofZ (z : Z) : SpecFloat.spec_float :=
  SpecFloat.binary_normalize FloatOps.prec FloatOps.emax z 0 false.

(** [p] shifted left by [n] bits. *)
Definition shiftl (n : nat) (p : positive) : positive := Nat.iter n xO p.

(** The number of binary digits of [p]. *)
Definition dn (p : positive) : nat := Pos.to_nat (SpecFloat.digits2_pos p).

(** The revenue and the cost of one item of a sale of whole amounts. *)
Definition whole_revenue (i : SaleItem.t) : Z := SaleItem.price i * SaleItem.qty i.

Definition whole_cost (i : SaleItem.t) : Z :=
  default 0 (SaleItem.costAtSale i) * SaleItem.qty i.

Definition sum_items (f : SaleItem.t → Z) (items : list SaleItem.t) : Z :=
  foldr (λ it a, f it + a) 0 items.

(** [Σ f] over the items of the sales. *)
Definition sum_sales (f : SaleItem.t → Z) (sales : list Sale.t) : Z :=
  foldr (λ s a, sum_items f (Sale.items s) + a) 0 sales.

(** The sales of the day [date]. *)
Definition on_date (today date : string) (sales : list Sale.t) : list Sale.t :=
  filter (λ s, default today (Sale.localDate s) = date) sales.

(** The revenue and the cost of all the sales together. *)
Definition volume (sales : list Sale.t) : Z :=
  sum_sales (λ i, whole_revenue i + whole_cost i) sales.

(** The row of a day in exact arithmetic. *)
Definition whole_row (today date : string) (sales : list Sale.t) : Balance.Acc :=
  let C := sum_sales whole_cost (on_date today date sales) in
  let R := sum_sales whole_revenue (on_date today date sales) in
  Balance.mkAcc (Number C) (Number (R - C)) (Number R).

(** Price, quantity and cost of an item are whole numbers from 0 up to,
    but not including, 2^53. *)
Definition whole_item (i : SaleItem.t) : Prop :=
  0 <= SaleItem.price i < 2 ^ 53 ∧ 0 <= SaleItem.qty i < 2 ^ 53 ∧
  0 <= default 0 (SaleItem.costAtSale i) < 2 ^ 53.

(** Sales of such items whose revenue and cost together stay below 2^53:
    every sum that the balance takes of them is a whole number that a
    double holds exactly. *)
Definition whole (sales : list Sale.t) : Prop :=
  Forall (λ s, Forall whole_item (Sale.items s)) sales ∧ volume sales < 2 ^ 53.

(** * Properties *)

(** ** Utils *)


Lemma productsMap_snoc ps p :
  productsMap (ps ++ [p]) = <[Product.code p := p]> (productsMap ps).
Proof. unfold productsMap. by rewrite foldl_app. Qed.

Lemma productsMap_code ps k p :
  productsMap ps !! k = Some p → Product.code p = k.
Proof.
  revert k p. induction ps as [|q ps IH] using rev_ind; intros k p.
  - unfold productsMap; simpl. by rewrite lookup_empty.
  - rewrite productsMap_snoc. destruct (decide (Product.code q = k)) as [<-|Hne].
    + rewrite lookup_insert_eq. by intros [= <-].
    + rewrite lookup_insert_ne by done. apply IH.
Qed.

Lemma trim_PAN : trim PAN = PAN.
Proof. reflexivity. Qed.

(** *** trim *)

Lemma append_cons a s1 s2 : String a s1 +:+ s2 = String a (s1 +:+ s2).
Proof. reflexivity. Qed.

Lemma append_nil_r s : s +:+ "" = s.
Proof. induction s as [|a s IH]; [done|]. by rewrite append_cons, IH. Qed.

Lemma append_assoc s1 s2 s3 : (s1 +:+ s2) +:+ s3 = s1 +:+ (s2 +:+ s3).
Proof. induction s1 as [|a s1 IH]; [done|]. by rewrite !append_cons, IH. Qed.

Lemma rev_app_rev_app s1 s2 s3 :
  String.rev_app (String.rev_app s1 s2) s3 = String.rev_app s2 (s1 +:+ s3).
Proof.
  revert s2 s3. induction s1 as [|a s1 IH]; intros s2 s3; [done|].
  rewrite append_cons. simpl. by rewrite IH.
Qed.

Lemma rev_rev s : String.rev (String.rev s) = s.
Proof. unfold String.rev. rewrite rev_app_rev_app. simpl. apply append_nil_r. Qed.

Lemma rev_app_append s1 s2 : String.rev_app s1 s2 = String.rev s1 +:+ s2.
Proof.
  unfold String.rev. revert s2. induction s1 as [|a s1 IH]; intros s2; [done|].
  simpl. rewrite (IH (String a s2)), (IH (String a "")), append_assoc.
  by rewrite append_cons.
Qed.

Lemma rev_app_of_append s1 s2 w :
  String.rev_app (s1 +:+ s2) w = String.rev_app s2 (String.rev_app s1 w).
Proof.
  revert w. induction s1 as [|a s1 IH]; intros w; [done|].
  rewrite append_cons. simpl. by rewrite IH.
Qed.

Lemma rev_append s1 s2 : String.rev (s1 +:+ s2) = String.rev s2 +:+ String.rev s1.
Proof.
  unfold String.rev at 1. by rewrite rev_app_of_append, rev_app_append.
Qed.

Section Strip.
Variable w1 : Ascii.ascii → bool.
Variable w2 : Ascii.ascii → Ascii.ascii → bool.
Variable w3 : Ascii.ascii → Ascii.ascii → Ascii.ascii → bool.

Lemma strip_w1 a s : w1 a = true → strip w1 w2 w3 (String a s) = strip w1 w2 w3 s.
Proof. simpl. by intros ->. Qed.

Lemma strip_w2 a b s :
  w1 a = false → w2 a b = true →
  strip w1 w2 w3 (String a (String b s)) = strip w1 w2 w3 s.
Proof. simpl. by intros -> ->. Qed.

Lemma strip_w3 a b c s :
  w1 a = false → w2 a b = false → w3 a b c = true →
  strip w1 w2 w3 (String a (String b (String c s))) = strip w1 w2 w3 s.
Proof. simpl. by intros -> -> ->. Qed.

Lemma strip_id s : headws w1 w2 w3 s = false → strip w1 w2 w3 s = s.
Proof.
  destruct s as [|a [|b [|c s]]]; simpl; [done|..].
  - rewrite orb_false_r. by intros ->.
  - rewrite orb_false_r. intros [-> ->]%orb_false_elim. done.
  - intros [-> [-> ->]%orb_false_elim]%orb_false_elim. done.
Qed.

Lemma headws_cases s :
  headws w1 w2 w3 s = true →
  (∃ a s1, s = String a s1 ∧ w1 a = true) ∨
  (∃ a b s2, s = String a (String b s2) ∧ w1 a = false ∧ w2 a b = true) ∨
  (∃ a b c s3, s = String a (String b (String c s3)) ∧
               w1 a = false ∧ w2 a b = false ∧ w3 a b c = true).
Proof.
  destruct s as [|a s1]; simpl; [done|].
  destruct (w1 a) eqn:H1; [intros _; left; eauto|]. simpl.
  destruct s1 as [|b s2]; [done|].
  destruct (w2 a b) eqn:H2; [intros _; right; left; by exists a, b, s2|]. simpl.
  destruct s2 as [|c s3]; [done|].
  intros H3. right; right. by exists a, b, c, s3.
Qed.

(** What [strip] returns is what is left of the string, and it begins
    with no character that the tests recognise. *)
Lemma strip_spec_length n s :
  (String.length s <= n)%nat →
  headws w1 w2 w3 (strip w1 w2 w3 s) = false ∧
  ∃ u, s = u +:+ strip w1 w2 w3 s.
Proof.
  revert s. induction n as [n IH] using lt_wf_ind. intros s Hn.
  destruct (headws w1 w2 w3 s) eqn:Hh.
  - apply headws_cases in Hh
      as [(a & s1 & -> & H1)|[(a & b & s2 & -> & H1 & H2)
                             |(a & b & c & s3 & -> & H1 & H2 & H3)]];
      simpl in Hn.
    + rewrite (strip_w1 _ _ H1).
      destruct (IH (String.length s1) ltac:(lia) s1 ltac:(lia)) as [Hc [u Hu]].
      split; [exact Hc|]. exists (String a u). by rewrite append_cons, <- Hu.
    + rewrite (strip_w2 _ _ _ H1 H2).
      destruct (IH (String.length s2) ltac:(lia) s2 ltac:(lia)) as [Hc [u Hu]].
      split; [exact Hc|]. exists (String a (String b u)).
      by rewrite !append_cons, <- Hu.
    + rewrite (strip_w3 _ _ _ _ H1 H2 H3).
      destruct (IH (String.length s3) ltac:(lia) s3 ltac:(lia)) as [Hc [u Hu]].
      split; [exact Hc|]. exists (String a (String b (String c u))).
      by rewrite !append_cons, <- Hu.
  - rewrite (strip_id _ Hh). split; [done|]. by exists "".
Qed.

Lemma strip_clean s : headws w1 w2 w3 (strip w1 w2 w3 s) = false.
Proof. by apply (strip_spec_length (String.length s)). Qed.

Lemma strip_suffix s : ∃ u, s = u +:+ strip w1 w2 w3 s.
Proof. by apply (strip_spec_length (String.length s)). Qed.

(** A string that begins with such a character still does when it is
    continued. *)
Lemma headws_append x y :
  headws w1 w2 w3 x = true → headws w1 w2 w3 (x +:+ y) = true.
Proof.
  destruct x as [|a [|b [|c x]]]; simpl; [done|..].
  - rewrite orb_false_r. by intros ->.
  - rewrite !orb_false_r. intros [->| ->]%orb_true_iff; [done|].
    destruct y; simpl; by rewrite ?orb_true_r.
  - done.
Qed.
End Strip.

Lemma trimStart_clean s : clean (trimStart s).
Proof. apply strip_clean. Qed.

Lemma trimStart_id s : clean s → trimStart s = s.
Proof. apply strip_id. Qed.

(** [trimEnd] keeps a prefix of the string. *)
Lemma trimEnd_prefix t : ∃ w, t = trimEnd t +:+ w.
Proof.
  unfold trimEnd.
  destruct (strip_suffix ws1 (λ a b, ws2 b a) (λ a b c, ws3 c b a) (String.rev t))
    as [u Hu].
  exists (String.rev u). rewrite <- rev_append, <- Hu. by rewrite rev_rev.
Qed.

Lemma trimEnd_clean t : clean t → clean (trimEnd t).
Proof.
  unfold clean. intros Ht. destruct (trimEnd_prefix t) as [w Hw].
  destruct (headws ws1 ws2 ws3 (trimEnd t)) eqn:Hh; [|done].
  apply (headws_append _ _ _ _ w) in Hh. rewrite <- Hw in Hh. congruence.
Qed.

(** Trimming twice is trimming once: the scanner handler hands [addByCode]
    a code that its own [trim] leaves as it is. *)
Lemma trim_trim s : trim (trim s) = trim s.
Proof.
  unfold trim at 1.
  rewrite (trimStart_id (trim s)) by apply trimEnd_clean, trimStart_clean.
  unfold trim, trimEnd. rewrite rev_rev.
  by rewrite (strip_id _ _ _ (strip _ _ _ _)) by apply strip_clean.
Qed.

(** A no-break space and a space before the code, an ideographic space and
    a tab after it; a zero-width space (E2 80 8B) is no white space. *)
Example trim_white_space :
  let nbsp := String (Ascii.ascii_of_nat 194) (String (Ascii.ascii_of_nat 160) "") in
  let wide := String (Ascii.ascii_of_nat 227)
                (String (Ascii.ascii_of_nat 128) (String (Ascii.ascii_of_nat 128) "")) in
  let zwsp := String (Ascii.ascii_of_nat 226)
                (String (Ascii.ascii_of_nat 128) (String (Ascii.ascii_of_nat 139) "")) in
  let tab := String (Ascii.ascii_of_nat 9) "" in
  trim (nbsp +:+ " 001" +:+ wide +:+ tab) = "001" ∧
  trim (zwsp +:+ "001") = zwsp +:+ "001".
Proof. split; reflexivity. Qed.

(** The price is rounded from the double: 50 × 1.15 is just below 57.5. *)
Example calcPrice_binary64 : calcPrice 100 50 = 150 ∧ calcPrice 50 15 = 57.
Proof. split; reflexivity. Qed.

(** ** Facts on the list operations of the handlers *)



Lemma list_find_has_code c (l : list SaleItem.t) idx it :
  list_find (has_code c) l = Some (idx, it) →
  l !! idx = Some it ∧ SaleItem.code it = c.
Proof. intros (? & ? & _)%list_find_Some. done. Qed.


(** ** What each handler does to the state *)

Lemma addByCode_success ps code qty st st' :
  addByCode ps code qty st = (None, st') →
  ∃ prod,
    productsMap ps !! trim code = Some prod ∧
    Product.code prod = trim code ∧
    existingQty (trim code) (cart st) + qty <= Product.stock prod ∧
    undoStack st' = UndoEntry.mk "add" code qty :: undoStack st ∧
    ((∃ idx it, list_find (has_code (trim code)) (cart st) = Some (idx, it) ∧
        cart st' = <[idx := SaleItem.with_qty (SaleItem.qty it + qty) it]> (cart st))
     ∨ (list_find (has_code (trim code)) (cart st) = None ∧
        cart st' = newLine prod qty :: cart st)).
Proof.
  unfold addByCode. destruct (productsMap ps !! trim code) as [prod|] eqn:Hp; [|done].
  pose proof (productsMap_code _ _ _ Hp) as Hc. rewrite Hc.
  case_bool_decide as Hq; [done|]. intros [= <-]. exists prod.
  split_and!; [done|done|lia|done|].
  simpl. destruct (list_find _ _) as [[idx it]|] eqn:Hf; [left; eauto|right].
  split; [done|]. unfold newLine. by rewrite Hc.
Qed.

Lemma qtyOnChange_success ps idx value st st' :
  qtyOnChange ps idx value st = (None, st') →
  st' = st ∨
  ∃ i, cart st !! idx = Some i ∧
       st' = mkPOS (<[idx := SaleItem.with_qty (Z.max 1 value) i]> (cart st))
                   (undoStack st).
Proof.
  unfold qtyOnChange. destruct (cart st !! idx) as [i|] eqn:Hi.
  - intros H. right. exists i. split; [done|].
    repeat case_decide; repeat case_match; repeat case_bool_decide; congruence.
  - intros [= <-]. by left.
Qed.

Lemma undo_cases st :
  match undoStack st with
  | [] => undo st = st
  | last :: s =>
      undoStack (undo st) = s ∧
      (cart (undo st) = cart st
       ∨ cart (undo st)
         = filter (λ i, SaleItem.code i ≠ UndoEntry.code last) (cart st)
       ∨ ∃ idx item,
           list_find (has_code (UndoEntry.code last)) (cart st) = Some (idx, item) ∧
           0 < SaleItem.qty item - UndoEntry.qty last ∧
           cart (undo st)
           = <[idx := SaleItem.with_qty (SaleItem.qty item - UndoEntry.qty last) item]>
               (cart st))
  end.
Proof.
  unfold undo. destruct (undoStack st) as [|last s]; [done|].
  case_decide; [|simpl; auto].
  destruct (list_find _ _) as [[idx item]|] eqn:Hf; simpl; [|auto].
  case_bool_decide; simpl; split; auto.
  right; right. exists idx, item. split_and!; [done|lia|done].
Qed.

Lemma cobrar_success_clears today userEmail db st sale st' db' :
  cobrar today userEmail db st = (inr sale, st', db') → st' = mkPOS [] [].
Proof.
  unfold cobrar. case_decide; [done|].
  destruct (runTransaction _ _) as [[e|[]] d]; [done|]. by intros [= _ <- _].
Qed.

(** ** Invariants of the reachable states *)




Lemma Forall_filter_cart (P Q : SaleItem.t → Prop) `{!∀ i, Decision (Q i)} cart :
  Forall P cart → Forall P (filter Q cart).
Proof.
  rewrite !Forall_forall. intros HP i Hi.
  apply list_elem_of_filter in Hi as [_ Hi]. by apply HP.
Qed.


Lemma step_positive ok st st' :
  step ok st st' → Forall positive_qty (cart st) → Forall positive_qty (cart st').
Proof.
  intros Hstep Hinv. destruct Hstep as
    [ps code qty st st' _ Hpos Hadd | ps idx v st st' _ Hq | code st | st | st
    | precioFinal st | today userEmail db st sale st' db' Hc].
  - apply addByCode_success in Hadd as (prod & _ & Hcode & _ & _ & Hcart).
    destruct Hcart as [(idx & it & Hf & ->)|[Hf ->]].
    + apply list_find_has_code in Hf as [Hl _].
      apply Forall_insert; [done|].
      eapply Forall_lookup_1 in Hinv; [|done]. unfold positive_qty in *. simpl. lia.
    + by apply Forall_cons.
  - apply qtyOnChange_success in Hq as [->|(i & Hi & ->)]; [done|]. simpl.
    apply Forall_insert; [done|]. unfold positive_qty. simpl. lia.
  - by apply Forall_filter_cart.
  - by apply Forall_nil.
  - pose proof (undo_cases st) as Hu. destruct (undoStack st) as [|last s].
    + by rewrite Hu.
    + destruct Hu as [_ [->|[->|(idx & item & Hf & Hpos & ->)]]]; [done| |].
      * by apply Forall_filter_cart.
      * by apply Forall_insert.
  - unfold onAdd; simpl. apply Forall_cons. split; [|done].
    unfold positive_qty; simpl. lia.
  - apply cobrar_success_clears in Hc as ->. by apply Forall_nil.
Qed.

Lemma step_undo_not_PAN st st' :
  step no_PAN_product st st' →
  Forall (λ e, UndoEntry.code e ≠ PAN) (undoStack st) →
  Forall (λ e, UndoEntry.code e ≠ PAN) (undoStack st').
Proof.
  intros Hstep Hinv. destruct Hstep as
    [ps code qty st st' Hok _ Hadd | ps idx v st st' _ Hq | code st | st | st
    | precioFinal st | today userEmail db st sale st' db' Hc].
  - apply addByCode_success in Hadd as (prod & Hp & _ & _ & -> & _).
    apply Forall_cons. split; [|done]. simpl. intros ->.
    rewrite trim_PAN in Hp. unfold no_PAN_product in Hok. congruence.
  - by apply qtyOnChange_success in Hq as [->|(i & Hi & ->)].
  - done.
  - by apply Forall_nil.
  - pose proof (undo_cases st) as Hu. destruct (undoStack st) as [|last s] eqn:E.
    + by rewrite Hu, E.
    + destruct Hu as [-> _]. by apply Forall_cons in Hinv as [_ ?].
  - done.
  - apply cobrar_success_clears in Hc as ->. by apply Forall_nil.
Qed.

Lemma reachable_under_weaken ok st : reachable_under ok st → reachable st.
Proof.
  unfold reachable, reachable_under. apply rtc_subrel.
  intros x y H.
  destruct H;
    [ eapply step_addByCode | eapply step_qtyOnChange | apply step_removeItem
    | apply step_cancelAll | apply step_undo | apply step_onAdd
    | eapply step_cobrar ]; eauto.
Qed.

(** A property of the initial state that every event preserves holds in
    every reachable state. *)
Lemma reachable_under_invariant ok (P : POS → Prop) :
  P initial → (∀ st st', step ok st st' → P st → P st') →
  ∀ st, reachable_under ok st → P st.
Proof.
  intros Hinit Hstep st H. unfold reachable_under in H.
  revert st H. apply rtc_ind_r; [done|].
  intros y z _ Hyz IH. by eapply Hstep.
Qed.


Lemma reachable_positive st : reachable st → Forall positive_qty (cart st).
Proof.
  apply (reachable_under_invariant _ (λ st, Forall positive_qty (cart st))).
  - by apply Forall_nil.
  - apply step_positive.
Qed.

Lemma reachable_undo_not_PAN st :
  reachable_under no_PAN_product st →
  Forall (λ e, UndoEntry.code e ≠ PAN) (undoStack st).
Proof.
  apply (reachable_under_invariant _
           (λ st, Forall (λ e, UndoEntry.code e ≠ PAN) (undoStack st))).
  - by apply Forall_nil.
  - apply step_undo_not_PAN.
Qed.

(** ** The checkout transaction *)

Lemma zip_indexed_snaps get cart :
  zip (indexed cart) (snaps get (indexed cart)) = entry get <$> cart.
Proof.
  unfold indexed, snaps. induction cart as [|it cart IH]; [done|].
  rewrite !fmap_cons. simpl. rewrite IH. f_equal.
  unfold entry. by case_decide.
Qed.

Lemma map_throw_inr {A B} (f : A → Err + B) l ys :
  map_throw f l = inr ys ↔ Forall2 (λ x y, f x = inr y) l ys.
Proof.
  revert ys. induction l as [|x l IH]; intros ys; simpl.
  - split; [intros [= <-]; constructor|by intros ->%Forall2_nil_inv_l].
  - destruct (f x) as [e|y] eqn:Hx.
    + split; [done|]. intros (? & ? & ? & ? & ?)%Forall2_cons_inv_l. congruence.
    + destruct (map_throw f l) as [e|ys'] eqn:Hl.
      * split; [done|]. intros (? & ys' & ? & H%IH & ?)%Forall2_cons_inv_l. done.
      * split.
        -- intros [= <-]. constructor; [done|]. by apply IH.
        -- intros (y' & ys'' & ? & H%IH & ->)%Forall2_cons_inv_l. congruence.
Qed.

Lemma map_throw_inl {A B} (f : A → Err + B) l e :
  map_throw f l = inl e ↔
  ∃ l1 x l2, l = l1 ++ x :: l2 ∧ Forall (λ y, ∃ z, f y = inr z) l1 ∧ f x = inl e.
Proof.
  induction l as [|x l IH]; simpl.
  - split; [done|]. intros (l1 & ? & ? & ? & _). by destruct l1.
  - destruct (f x) as [e'|y] eqn:Hx.
    + split.
      * intros [= <-]. exists [], x, l. by repeat split.
      * intros ([|x' l1] & x'' & l2 & Heq & Hall & Hf); simplify_eq/=; [congruence|].
        apply Forall_cons in Hall as [[z Hz] _]. congruence.
    + destruct (map_throw f l) as [e'|ys] eqn:Hl.
      * split.
        -- intros [= <-]. destruct (proj1 IH eq_refl) as (l1 & x' & l2 & -> & ? & ?).
           exists (x :: l1), x', l2. repeat split; [|done]. constructor; eauto.
        -- intros ([|x' l1] & x'' & l2 & Heq & Hall & Hf); simplify_eq/=; [congruence|].
           apply Forall_cons in Hall as [_ Hall]. f_equal.
           assert (inl e' = inl e :> Err + list B) as [= ->]; [|done].
           apply IH. eauto 6.
      * split; [done|].
        intros ([|x' l1] & x'' & l2 & Heq & Hall & Hf); simplify_eq/=; [congruence|].
        apply Forall_cons in Hall as [_ Hall].
        assert (inr ys = inl e :> Err + list B); [|done]. apply IH. eauto 6.
Qed.

Lemma cobrar_tx_unfold cart tot today userEmail get :
  cobrar_tx cart tot today userEmail get =
  match map_throw itemForSale (entry get <$> cart) with
  | inl e => inl e
  | inr itemsForSale =>
      inr (updates get cart
           ++ [SetSale (Sale.mk (stamped <$> itemsForSale) tot
                          (Some userEmail) (Some today))])
  end.
Proof. unfold cobrar_tx. by rewrite zip_indexed_snaps. Qed.

Lemma stockWrite_entry get it :
  stockWrite (entry get it) =
  if decide (SaleItem.code it ≠ PAN) then
    match get (SaleItem.code it) with
    | Some p => [Update (SaleItem.code it) (Product.stock p - SaleItem.qty it)]
    | None => []
    end
  else [].
Proof. unfold stockWrite, entry; simpl. by repeat case_decide. Qed.

Lemma itemForSale_entry get it :
  itemForSale (entry get it) =
  if decide (SaleItem.code it = PAN)
  then inr (SaleItem.with_costAtSale (Some 0) it)
  else
    match get (SaleItem.code it) with
    | Some p =>
        if bool_decide (Product.stock p < SaleItem.qty it)
        then inl (InsufficientStock (Product.name p))
        else inr (SaleItem.with_costAtSale (Some (Product.cost p)) it)
    | None => inl (ProductNotFound (SaleItem.code it))
    end.
Proof. unfold itemForSale, entry; simpl. by repeat case_decide. Qed.

Lemma updates_app get l1 l2 :
  updates get (l1 ++ l2) = (updates get l1 ++ updates get l2).
Proof. unfold updates. by rewrite fmap_app, bind_app. Qed.

Lemma updates_cons get it l :
  updates get (it :: l) = (stockWrite (entry get it) ++ updates get l).
Proof. done. Qed.

Lemma updates_sales get cart db :
  sales_col (foldl apply_write db (updates get cart)) = sales_col db.
Proof.
  revert db. induction cart as [|it cart IH]; intros db; [done|].
  rewrite updates_cons, foldl_app, IH, stockWrite_entry.
  case_decide; [|done]. by destruct (get (SaleItem.code it)).
Qed.

(** A product that no tracked line names keeps its document. *)
Lemma updates_lookup_other get cart db k :
  k ∉ tracked_codes cart →
  products_col (foldl apply_write db (updates get cart)) !! k = products_col db !! k.
Proof.
  revert db. unfold tracked_codes.
  induction cart as [|it cart IH]; intros db Hk; [done|].
  rewrite fmap_cons, filter_cons in Hk.
  rewrite updates_cons, foldl_app, stockWrite_entry.
  destruct (decide (SaleItem.code it ≠ PAN)) as [Hp|Hp]; simpl.
  - apply not_elem_of_cons in Hk as [Hne Hk]. rewrite IH by done.
    destruct (get (SaleItem.code it)); simpl; [|done].
    by rewrite lookup_alter_ne.
  - by rewrite IH.
Qed.


Lemma cobrar_unfold today userEmail db st :
  cobrar today userEmail db st =
  if decide (cart st = []) then (inl EmptyCart, st, db)
  else
    let get := λ ref, products_col db !! ref in
    match map_throw itemForSale (entry get <$> cart st) with
    | inl e => (inl e, st, db)
    | inr itemsForSale =>
        (inr (Sale.mk
                ((λ i, SaleItem.with_costAtSale
                         (if decide (SaleItem.code i = PAN) then Some 0
                          else SaleItem.costAtSale i) i) <$> cart st)
                (total (cart st)) (Some userEmail) (Some today)),
         mkPOS [] [],
         mkDB (products_col (foldl apply_write db (updates get (cart st))))
              (sales_col db
               ++ [saleDoc itemsForSale (total (cart st)) today userEmail]))
    end.
Proof.
  unfold cobrar, runTransaction. rewrite cobrar_tx_unfold.
  destruct (cart st) as [|i c] eqn:Hc; [done|].
  rewrite decide_False, (decide_False (P := _ = [])) by done.
  destruct (map_throw _ _) as [e|items]; [done|].
  rewrite foldl_app. simpl. do 2 f_equal.
  by rewrite updates_sales.
Qed.

Lemma cobrar_success today userEmail db st echo st' db' :
  cobrar today userEmail db st = (inr echo, st', db') →
  let get := λ ref, products_col db !! ref in
  ∃ itemsForSale,
    cart st ≠ [] ∧ st' = mkPOS [] [] ∧
    Forall2 (λ line item, itemForSale (entry get line) = inr item)
            (cart st) itemsForSale ∧
    products_col db' = products_col (foldl apply_write db (updates get (cart st))) ∧
    sales_col db'
    = sales_col db ++ [saleDoc itemsForSale (total (cart st)) today userEmail].
Proof.
  rewrite cobrar_unfold. case_decide; [done|]. simpl.
  destruct (map_throw _ _) as [e|items] eqn:Hm; [done|].
  intros [= <- <- <-]. exists items. split_and!; try done.
  apply map_throw_inr in Hm. by apply Forall2_fmap_l in Hm.
Qed.

Lemma cobrar_failure today userEmail db st e st' db' :
  cobrar today userEmail db st = (inl e, st', db') → st' = st ∧ db' = db.
Proof.
  rewrite cobrar_unfold. case_decide; [by intros [= <- <- <-]|]. simpl.
  destruct (map_throw _ _) as [e'|items]; [|done]. by intros [= <- <- <-].
Qed.

(** A tracked line passes the validation only if its product exists with
    enough stock. *)
Lemma itemForSale_tracked get line item :
  SaleItem.code line ≠ PAN →
  itemForSale (entry get line) = inr item →
  ∃ p, get (SaleItem.code line) = Some p ∧
       SaleItem.qty line <= Product.stock p ∧
       item = SaleItem.with_costAtSale (Some (Product.cost p)) line.
Proof.
  intros Hp. rewrite itemForSale_entry, decide_False by done.
  destruct (get _) as [p|]; [|done]. case_bool_decide; [done|].
  intros [= <-]. exists p. split_and!; [done|lia|done].
Qed.

Lemma itemForSale_PAN get line item :
  SaleItem.code line = PAN →
  itemForSale (entry get line) = inr item →
  item = SaleItem.with_costAtSale (Some 0) line.
Proof.
  intros Hp. rewrite itemForSale_entry, decide_True by done. by intros [= <-].
Qed.

(** ** C1: total of the sale and stock of the products *)


Lemma cartA_reachable name : reachable (cartA name).
Proof.
  eapply rtc_l; [|apply rtc_refl].
  eapply (step_addByCode _ [productA name] "001" 3); [done|lia|].
  by vm_compute.
Qed.


(** ** C2: the validation inside the transaction *)


Lemma itemForSale_error db line e :
  itemForSale (entry (λ ref, products_col db !! ref) line) = inl e →
  (missing db line ∧ e = ProductNotFound (SaleItem.code line)) ∨
  (SaleItem.code line ≠ PAN ∧
   ∃ p, products_col db !! SaleItem.code line = Some p ∧
        Product.stock p < SaleItem.qty line ∧
        e = InsufficientStock (Product.name p)).
Proof.
  rewrite itemForSale_entry. case_decide as Hp; [done|].
  destruct (products_col db !! _) as [p|] eqn:Hl.
  - case_bool_decide; [|done]. intros [= <-]. right. eauto.
  - intros [= <-]. by left.
Qed.



(** Scenario C: the authoritative check rejects the cart and the persisted
    stock remains 1. *)
Example scenario_C today userEmail :
  cobrar today userEmail dbC cartC = (inl (InsufficientStock "Medialuna"), cartC, dbC)
  ∧ Product.stock <$> products_col dbC !! "001" = Some 1.
Proof. split; by vm_compute. Qed.



(** ** C3: a failed checkout keeps the cart *)

(** C3.  A checkout of a cart without lines fails with EmptyCart.  A
    checkout that fails (with EmptyCart, ProductNotFound or
    InsufficientStock) leaves the lines of the cart and the undo stack
    exactly as they were, and a checkout that succeeds leaves both empty. *)
Theorem C3_failed_commit_keeps_cart today userEmail db st :
  (cart st = [] → cobrar today userEmail db st = (inl EmptyCart, st, db)) ∧
  (∀ e st' db',
     cobrar today userEmail db st = (inl e, st', db') →
     cart st' = cart st ∧ undoStack st' = undoStack st ∧
     (e = EmptyCart ∨ (∃ c, e = ProductNotFound c) ∨ (∃ n, e = InsufficientStock n))) ∧
  (∀ echo st' db',
     cobrar today userEmail db st = (inr echo, st', db') →
     cart st ≠ [] ∧ cart st' = [] ∧ undoStack st' = []).
Proof.
  split_and!.
  - intros Hc. by rewrite cobrar_unfold, decide_True.
  - intros e st' db' Hc. pose proof Hc as [-> _]%cobrar_failure.
    split_and!; [done..|].
    rewrite cobrar_unfold in Hc. case_decide; [left; congruence|]. simpl in Hc.
    destruct (map_throw _ _) as [e'|items] eqn:Hm; [|done].
    assert (e' = e) as -> by congruence.
    apply map_throw_inl in Hm as (l1 & x & l2 & Heq & _ & Hx).
    assert (x ∈ entry (λ ref, products_col db !! ref) <$> cart st) as Hin.
    { rewrite Heq. apply elem_of_app. right. by left. }
    apply list_elem_of_fmap in Hin as (line & -> & _).
    apply itemForSale_error in Hx as [[_ ->]|(_ & p & _ & _ & ->)]; eauto.
  - intros echo st' db' Hc.
    apply cobrar_success in Hc as (_ & Hne & -> & _). done.
Qed.

(** The failure on the empty cart and the success of scenario A. *)
Example commit_empty_fails today userEmail db :
  cobrar today userEmail db initial = (inl EmptyCart, initial, db).
Proof. done. Qed.

(** ** C4: the cost recorded in the sale *)

Lemma snaps_indexed get cart :
  snaps get (indexed cart)
  = (λ line, if decide (SaleItem.code line ≠ PAN)
             then Some (get (SaleItem.code line)) else None) <$> cart.
Proof.
  unfold snaps, indexed. rewrite <- list_fmap_compose. apply list_fmap_ext.
  intros i line _. simpl. by case_decide.
Qed.

Lemma PAN_not_tracked cart : PAN ∉ tracked_codes cart.
Proof. unfold tracked_codes. rewrite list_elem_of_filter. by intros [? _]. Qed.

(** C4.  In the sale that a successful checkout writes, the items are the
    lines of the cart in order; the item of a tracked line carries as
    costAtSale the cost of the product as the transaction read it from the
    store, and the item of a line of bread (code PAN) carries 0.  Nothing is
    read for a line of bread, and no product other than those named by the
    tracked lines is modified, the document PAN included.  In particular 250 g
    at 3200 the kilo make a line of price 800 whose checkout records
    costAtSale 0 and leaves all products untouched. *)
Theorem C4_costAtSale_from_fresh_read :
  (∀ today userEmail db st echo st' db',
     cobrar today userEmail db st = (inr echo, st', db') →
     ∃ sale,
       sales_col db' = sales_col db ++ [sale] ∧
       Forall2 (λ line item,
                  SaleItem.code item = SaleItem.code line ∧
                  SaleItem.name item = SaleItem.name line ∧
                  SaleItem.qty item = SaleItem.qty line ∧
                  SaleItem.price item = SaleItem.price line ∧
                  if decide (SaleItem.code line = PAN)
                  then SaleItem.costAtSale item = Some 0
                  else ∃ p, products_col db !! SaleItem.code line = Some p ∧
                            SaleItem.costAtSale item = Some (Product.cost p))
               (cart st) (Sale.items sale) ∧
       Forall2 (λ line snap, SaleItem.code line = PAN → snap = None)
               (cart st)
               (snaps (λ ref, products_col db !! ref) (indexed (cart st))) ∧
       products_col db' !! PAN = products_col db !! PAN ∧
       ∀ k, k ∉ tracked_codes (cart st) →
            products_col db' !! k = products_col db !! k)
  ∧ (∀ today userEmail db,
       confirmar peso 0 250 3200 = Some 800 ∧
       cart cartD = [SaleItem.mk PAN "Pan" 1 800 None] ∧
       ∃ echo db',
         cobrar today userEmail db cartD = (inr echo, mkPOS [] [], db') ∧
         products_col db' = products_col db ∧
         sales_col db'
         = sales_col db
           ++ [Sale.mk [SaleItem.mk PAN "Pan" 1 800 (Some 0)] 800
                 (Some userEmail) (Some today)]).
Proof.
  split.
  - intros today userEmail db st echo st' db' Hc.
    apply cobrar_success in Hc as (items & _ & _ & Hitems & Hprod & Hsales).
    eexists. split; [exact Hsales|]. split_and!.
    + simpl. apply Forall2_fmap_r.
      eapply Forall2_impl; [exact Hitems|]. intros line item Hitem. simpl in Hitem.
      destruct (decide (SaleItem.code line = PAN)) as [Hp|Hp].
      * by apply itemForSale_PAN in Hitem as ->.
      * apply itemForSale_tracked in Hitem as (p & Hget & _ & ->); [|done].
        split_and!; [done..|]. eauto.
    + rewrite snaps_indexed. apply Forall2_fmap_r, Forall_Forall2_diag, Forall_forall.
      intros line _ Hp. by rewrite decide_False by (by intros []).
    + rewrite Hprod. apply updates_lookup_other, PAN_not_tracked.
    + intros k Hk. rewrite Hprod. by apply updates_lookup_other.
  - intros today userEmail db. split; [done|]. split; [done|].
    do 2 eexists. rewrite cobrar_unfold. simpl. split; [reflexivity|]. by split.
Qed.

Lemma C4_costAtSale_from_fresh_read_witness :
  let st := cartA "Pan dulce" in
  let db := dbA "Pan dulce" in
  let db' := (cobrar "2024-05-01" "caja@pana.com" db st).2 in
  ∃ sale,
    sales_col db' = sales_col db ++ [sale] ∧
    Forall2 (λ line item,
               SaleItem.code item = SaleItem.code line ∧
               SaleItem.name item = SaleItem.name line ∧
               SaleItem.qty item = SaleItem.qty line ∧
               SaleItem.price item = SaleItem.price line ∧
               if decide (SaleItem.code line = PAN)
               then SaleItem.costAtSale item = Some 0
               else ∃ p, products_col db !! SaleItem.code line = Some p ∧
                         SaleItem.costAtSale item = Some (Product.cost p))
            (cart st) (Sale.items sale) ∧
    Forall2 (λ line snap, SaleItem.code line = PAN → snap = None)
            (cart st)
            (snaps (λ ref, products_col db !! ref) (indexed (cart st))) ∧
    products_col db' !! PAN = products_col db !! PAN ∧
    ∀ k, k ∉ tracked_codes (cart st) →
         products_col db' !! k = products_col db !! k.
Proof.
  intros st db db'.
  eapply (proj1 C4_costAtSale_from_fresh_read "2024-05-01" "caja@pana.com" db st).
  vm_compute. reflexivity.
Defined.

(** ** C5: addByCode *)

Lemma productsMap_None ps k :
  productsMap ps !! k = None ↔ Forall (λ p, Product.code p ≠ k) ps.
Proof.
  induction ps as [|q ps IH] using rev_ind.
  - unfold productsMap; simpl. rewrite lookup_empty. split; [constructor|done].
  - rewrite productsMap_snoc, Forall_app, Forall_singleton, lookup_insert_None.
    rewrite IH. tauto.
Qed.





(** A second scan of the product of scenario A adds to its line. *)
Example addByCode_merges name :
  addByCode [productA name] "001" 2 (cartA name)
  = (None, mkPOS [SaleItem.mk "001" name 5 150 None]
                 [UndoEntry.mk "add" "001" 2; UndoEntry.mk "add" "001" 3]).
Proof. reflexivity. Qed.

(** ** C6: undo *)

Lemma filter_all (P : SaleItem.t → Prop) `{!∀ i, Decision (P i)} (l : list SaleItem.t) :
  Forall P l → filter P l = l.
Proof.
  induction 1 as [|i l Hi _ IH]; [done|].
  by rewrite filter_cons_True, IH.
Qed.

(** The first line of a code is still the first one after its quantity
    has been replaced. *)
Lemma list_find_insert_first c (l : list SaleItem.t) idx it q :
  list_find (has_code c) l = Some (idx, it) →
  list_find (has_code c) (<[idx := SaleItem.with_qty q it]> l)
  = Some (idx, SaleItem.with_qty q it).
Proof.
  intros (Hl & Hc & Hfirst)%list_find_Some. apply list_find_Some. split_and!.
  - apply list_lookup_insert_eq. by eapply lookup_lt_Some.
  - done.
  - intros j y Hj Hlt. rewrite list_lookup_insert_ne in Hj by lia. eauto.
Qed.





(** [addByCode] strips the code for the lookup and records it as given.
    Its caller has stripped the code already, so the two are the same in
    every call that the code makes; called with a code that still carries
    white space, it would add to the line of the product and leave an undo
    entry that matches no line. *)
Remark addByCode_code_as_given :
  ∃ st', addByCode [Product.mk "001" "Pan dulce" 100 50 10 None] " 001" 1 initial
         = (None, st') ∧
         cart st' = [SaleItem.mk "001" "Pan dulce" 1 150 None] ∧
         undoStack st' = [UndoEntry.mk "add" " 001" 1] ∧
         cart (undo st') = cart st'.
Proof. eexists. split; [vm_compute; reflexivity|]. split_and!; reflexivity. Qed.

(** ** C7: changing the quantity of a line *)

(** [Math.max(1, Number(qty || 1))] *)
Lemma clamp_or_1 qty : Z.max 1 (if decide (qty = 0) then 1 else qty) = Z.max 1 qty.
Proof. case_decide; lia. Qed.

(** C7.  The handler of the quantity field clamps the value to at least 1.
    On a tracked line whose product the catalog snapshot knows with less
    stock than the clamped value it fails with InsufficientStock and leaves
    the state as it is; otherwise it sets the quantity of that line to the
    clamped value.  A line of bread (code PAN) is never checked against any
    stock: its quantity is always set.  The helper [changeQty] clamps and
    checks in the same way for a code that the catalog knows. *)
Theorem C7_change_quantity :
  (∀ products idx value st line,
     cart st !! idx = Some line →
     let val := Z.max 1 value in
     let set := mkPOS (<[idx := SaleItem.with_qty val line]> (cart st)) (undoStack st) in
     1 <= val ∧ (1 <= value → val = value) ∧
     (SaleItem.code line ≠ PAN →
        (∀ prod, productsMap products !! SaleItem.code line = Some prod →
                 val > Product.stock prod →
                 qtyOnChange products idx value st
                 = (Some (InsufficientStock (Product.name prod)), st)) ∧
        (∀ prod, productsMap products !! SaleItem.code line = Some prod →
                 val <= Product.stock prod →
                 qtyOnChange products idx value st = (None, set)) ∧
        (productsMap products !! SaleItem.code line = None →
         qtyOnChange products idx value st = (None, set))) ∧
     (SaleItem.code line = PAN →
      qtyOnChange products idx value st = (None, set)) ∧
     cart set !! idx = Some (SaleItem.with_qty val line) ∧
     (∀ j, j ≠ idx → cart set !! j = cart st !! j))
  ∧ (∀ products code qty st prod,
       productsMap products !! code = Some prod →
       let q := Z.max 1 qty in
       (q > Product.stock prod →
        changeQty products code qty st
        = (Some (InsufficientStock (Product.name prod)), st)) ∧
       (q <= Product.stock prod →
        changeQty products code qty st
        = (None, mkPOS ((λ i, if decide (SaleItem.code i = code)
                              then SaleItem.with_qty q i else i) <$> cart st)
                       (undoStack st)))).
Proof.
  split.
  - intros products idx value st line Hl val set. split_and!.
    + lia.
    + lia.
    + intros Hp. unfold qtyOnChange. rewrite Hl, decide_True by done. split_and!.
      * intros prod -> Hq. by rewrite bool_decide_true.
      * intros prod -> Hq. by rewrite bool_decide_false by (fold val; lia).
      * by intros ->.
    + intros Hp. unfold qtyOnChange. rewrite Hl. by rewrite decide_False by (by intros []).
    + apply list_lookup_insert_eq. by eapply lookup_lt_Some.
    + intros j Hj. by apply list_lookup_insert_ne.
  - intros products code qty st prod Hp q. unfold changeQty. rewrite Hp, clamp_or_1.
    split; intros Hq.
    + by rewrite bool_decide_true.
    + by rewrite bool_decide_false by (fold q; lia).
Qed.

Lemma C7_change_quantity_witness :
  let st := onAdd 800 (cartA "Pan dulce") in
  cart st !! 0%nat = Some (SaleItem.mk PAN "Pan" 1 800 None) ∧
  qtyOnChange [] 0 3 st
  = (None, mkPOS (<[0%nat := SaleItem.mk PAN "Pan" 3 800 None]> (cart st)) (undoStack st)).
Proof.
  intros st. split; [reflexivity|].
  pose proof (proj1 C7_change_quantity [] 0%nat 3 st (SaleItem.mk PAN "Pan" 1 800 None)
                eq_refl) as (_ & _ & _ & Hpan & _).
  exact (Hpan eq_refl).
Defined.

(** The helper [changeQty] itself returns at once for a code that the
    catalog does not know, the one of the bread included. *)
Lemma changeQty_unknown products code qty st :
  productsMap products !! code = None → changeQty products code qty st = (None, st).
Proof. intros H. unfold changeQty. by rewrite H. Qed.

(** ** C9: the bread and the undo stack *)

Lemma filter_insert_neither (P : SaleItem.t → Prop) `{!∀ i, Decision (P i)}
    (l : list SaleItem.t) idx x x' :
  l !! idx = Some x → ¬ P x → ¬ P x' → filter P (<[idx := x']> l) = filter P l.
Proof.
  revert idx. induction l as [|y l IH]; intros [|idx] Hl Hx Hx'; simplify_eq/=.
  - by rewrite !filter_cons_False.
  - rewrite !filter_cons. by rewrite (IH idx).
Qed.

(** An [undo] whose entry carries another code than PAN leaves the lines of
    bread as they are. *)
Lemma undo_keeps_PAN st :
  Forall (λ e, UndoEntry.code e ≠ PAN) (undoStack st) →
  filter (has_code PAN) (cart (undo st)) = filter (has_code PAN) (cart st).
Proof.
  intros Hall. pose proof (undo_cases st) as Hu.
  destruct (undoStack st) as [|last s]; [by rewrite Hu|].
  apply Forall_cons in Hall as [Hlast _].
  destruct Hu as [_ [->|[->|(idx & item & Hf & _ & ->)]]]; [done| |].
  - rewrite list_filter_filter. apply list_filter_iff.
    intros i. unfold has_code. split; [tauto|]. intros Hi. split; [done|congruence].
  - apply list_find_has_code in Hf as [Hl Hc].
    eapply filter_insert_neither; [done|..]; unfold has_code; simpl; congruence.
Qed.

(** C9, as the code has it.  Confirming the modal with a positive price, or
    with a positive weight in grams, puts in front of the cart a line of code
    PAN with quantity 1 and, as price, the price entered or
    [Math.round((grams / 1000) * pricePerKg)], computed in doubles as the
    code does: 250 g at 3200 the kilo are 800, and 9 g at 1500 the kilo are
    13, the double of 0.009 × 1500 being just below 13.5.  No catalog and no
    stock is consulted, and the undo stack stays as it is.  As long as no
    product of the catalog carries the code PAN, no undo entry carries it
    either, and [undo] in any state the component can be in leaves the lines
    of bread exactly as they are. *)
Theorem C9_bread_line_and_undo :
  (∀ p g pricePerKg st,
     (0 < p →
      panConfirmar precio p g pricePerKg st
      = mkPOS (SaleItem.mk PAN "Pan" 1 p None :: cart st) (undoStack st)) ∧
     (0 < g →
      panConfirmar peso p g pricePerKg st
      = mkPOS (SaleItem.mk PAN "Pan" 1
                 (Math_round ((Number g / 1000) * Number pricePerKg)%float) None
               :: cart st)
              (undoStack st))) ∧
  (∀ p st,
     panConfirmar peso p 250 3200 st
     = mkPOS (SaleItem.mk PAN "Pan" 1 800 None :: cart st) (undoStack st) ∧
     panConfirmar peso p 9 1500 st
     = mkPOS (SaleItem.mk PAN "Pan" 1 13 None :: cart st) (undoStack st)) ∧
  (∀ precioFinal st, undoStack (onAdd precioFinal st) = undoStack st) ∧
  (∀ st, reachable_under no_PAN_product st →
         Forall (λ e, UndoEntry.code e ≠ PAN) (undoStack st) ∧
         filter (has_code PAN) (cart (undo st)) = filter (has_code PAN) (cart st)).
Proof.
  split_and!.
  - intros p g pricePerKg st. split.
    + intros Hp. unfold panConfirmar, confirmar. by rewrite bool_decide_true by lia.
    + intros Hg. unfold panConfirmar, confirmar. by rewrite bool_decide_true by lia.
  - intros p st. split; reflexivity.
  - done.
  - intros st Hreach. pose proof (reachable_undo_not_PAN _ Hreach) as Hall.
    split; [done|]. by apply undo_keeps_PAN.
Qed.

Lemma cartPAN_reachable : reachable cartPAN.
Proof.
  eapply rtc_l; [|eapply rtc_l; [|apply rtc_refl]].
  - eapply (step_addByCode _ [lactal] "PAN" 1); [done|lia|]. by vm_compute.
  - apply step_onAdd.
Qed.

Lemma C9_bread_line_and_undo_witness :
  let st := onAdd 800 (cartA "Pan dulce") in
  reachable_under no_PAN_product st ∧
  filter (has_code PAN) (cart (undo st)) = filter (has_code PAN) (cart st).
Proof.
  intros st.
  assert (reachable_under no_PAN_product st) as Hreach.
  { eapply rtc_l; [|eapply rtc_l; [|apply rtc_refl]].
    - eapply (step_addByCode _ [productA "Pan dulce"] "001" 3); [|lia|].
      + reflexivity.
      + vm_compute. reflexivity.
    - apply step_onAdd. }
  split; [exact Hreach|].
  exact (proj2 (proj2 (proj2 (proj2 C9_bread_line_and_undo)) st Hreach)).
Defined.

(** With a product of code PAN in the catalog, scanning it pushes an undo
    entry of code PAN; after a line of bread is added, [undo] finds the
    bread first and removes it together with the scanned line. *)
Lemma C9_counterexample :
  reachable cartPAN ∧
  cart cartPAN = [SaleItem.mk PAN "Pan" 1 800 None;
                  SaleItem.mk PAN "Pan lactal" 1 150 None] ∧
  cart (undo cartPAN) = [].
Proof. split; [apply cartPAN_reachable|]. split; reflexivity. Qed.

(** ** C10: removing a line *)

Lemma filter_none (P : SaleItem.t → Prop) `{!∀ i, Decision (P i)} (l : list SaleItem.t) :
  Forall (λ i, ¬ P i) l → filter P l = [].
Proof.
  induction 1 as [|i l Hi _ IH]; [done|]. by rewrite filter_cons_False.
Qed.

(** C10.  [removeItem] keeps exactly the lines whose code differs from the
    given one, in their order, and removes every line that has it; the undo
    stack stays.  Each addition of bread makes a line of its own with the
    code PAN, so removing one line of bread removes them all and keeps the
    lines of the other codes. *)
Theorem C10_removeItem_removes_every_line :
  (∀ code st,
     undoStack (removeItem code st) = undoStack st ∧
     Forall (λ i, SaleItem.code i ≠ code) (cart (removeItem code st)) ∧
     filter (λ i, SaleItem.code i ≠ code) (cart (removeItem code st))
     = filter (λ i, SaleItem.code i ≠ code) (cart st) ∧
     (∀ i, i ∈ cart (removeItem code st) ↔ i ∈ cart st ∧ SaleItem.code i ≠ code) ∧
     (Forall (λ i, SaleItem.code i ≠ code) (cart st) → removeItem code st = st)) ∧
  (∀ p1 p2 st,
     cart (onAdd p2 (onAdd p1 st))
     = SaleItem.mk PAN "Pan" 1 p2 None :: SaleItem.mk PAN "Pan" 1 p1 None :: cart st ∧
     cart (removeItem PAN (onAdd p2 (onAdd p1 st))) = cart (removeItem PAN st) ∧
     filter (has_code PAN) (cart (removeItem PAN (onAdd p2 (onAdd p1 st)))) = [] ∧
     filter (λ i, SaleItem.code i ≠ PAN) (cart (removeItem PAN (onAdd p2 (onAdd p1 st))))
     = filter (λ i, SaleItem.code i ≠ PAN) (cart st)).
Proof.
  assert (∀ code st,
            Forall (λ i, SaleItem.code i ≠ code) (cart (removeItem code st))) as Hgone.
  { intros code st. apply Forall_forall. intros i Hi.
    by apply list_elem_of_filter in Hi as [? _]. }
  assert (∀ code st,
            filter (λ i, SaleItem.code i ≠ code) (cart (removeItem code st))
            = filter (λ i, SaleItem.code i ≠ code) (cart st)) as Hkept.
  { intros code st. simpl. rewrite list_filter_filter. apply list_filter_iff. tauto. }
  split.
  - intros code st. split_and!; [done|apply Hgone|apply Hkept| |].
    + intros i. simpl. rewrite list_elem_of_filter. tauto.
    + intros Hall. destruct st as [c u]. unfold removeItem; simpl. f_equal.
      by apply filter_all.
  - intros p1 p2 st. split_and!; [done|done| |].
    + apply filter_none. eapply Forall_impl; [apply Hgone|].
      intros i Hi. unfold has_code. congruence.
    + rewrite Hkept. done.
Qed.

(** ** C8: the balance per day *)

(** [a < b] on strings is the strict part of the lexicographic order. *)
Lemma ltb_strict a b : String.ltb a b = true ↔ strict String.le a b.
Proof.
  unfold strict, String.le, String.ltb, String.leb.
  rewrite (String.compare_antisym b a).
  destruct (String.compare a b); simpl; split; try done; try tauto; by intros [].
Qed.

Lemma ltb_false_le a b : String.ltb a b = false ↔ String.le b a.
Proof.
  unfold String.le, String.ltb, String.leb.
  rewrite (String.compare_antisym b a).
  destruct (String.compare a b); simpl; split; done.
Qed.

Lemma later_trans a b c : later a b → later b c → later a c.
Proof. unfold later. intros Hab Hbc. by etrans. Qed.

Lemma cmp_nonpos_later (a b : string * Balance.Acc) :
  a.1 ≠ b.1 → Balance.cmp a b <= 0 → later a b.
Proof.
  unfold Balance.cmp, later. intros Hne.
  destruct (String.ltb a.1 b.1) eqn:Hlt; [lia|]. intros _.
  apply ltb_false_le in Hlt. apply strict_spec_alt. split; [done|congruence].
Qed.

Lemma cmp_pos_later (a b : string * Balance.Acc) :
  ¬ Balance.cmp a b <= 0 → later b a.
Proof.
  unfold Balance.cmp, later.
  destruct (String.ltb a.1 b.1) eqn:Hlt; [|lia]. intros _. by apply ltb_strict.
Qed.

Lemma insert_by_Permutation {A} (cmp : A → A → Z) x l :
  Balance.insert_by cmp x l ≡ₚ x :: l.
Proof.
  induction l as [|y l IH]; simpl; [done|].
  case_bool_decide; [done|]. by rewrite IH, Permutation_swap.
Qed.

Lemma sort_by_Permutation {A} (cmp : A → A → Z) l : Balance.sort_by cmp l ≡ₚ l.
Proof.
  unfold Balance.sort_by. induction l as [|x l IH]; simpl; [done|].
  by rewrite insert_by_Permutation, IH.
Qed.

Lemma insert_by_sorted x l :
  x.1 ∉ l.*1 → StronglySorted later l →
  StronglySorted later (Balance.insert_by Balance.cmp x l).
Proof.
  intros Hx Hl. induction Hl as [|y l Hl IH Hy]; simpl.
  - repeat constructor.
  - rewrite fmap_cons in Hx. apply not_elem_of_cons in Hx as [Hxy Hx].
    case_bool_decide as Hc.
    + apply cmp_nonpos_later in Hc; [|done]. constructor.
      * by constructor.
      * constructor; [done|]. eapply Forall_impl; [exact Hy|].
        intros z. by apply later_trans.
    + apply cmp_pos_later in Hc. constructor; [by apply IH|].
      rewrite insert_by_Permutation. by constructor.
Qed.

Lemma sort_by_sorted l :
  NoDup l.*1 → StronglySorted later (Balance.sort_by Balance.cmp l).
Proof.
  unfold Balance.sort_by. induction l as [|x l IH]; [constructor|].
  rewrite fmap_cons. intros [Hx Hl]%NoDup_cons. simpl.
  apply insert_by_sorted; [|by apply IH].
  by rewrite (sort_by_Permutation Balance.cmp l).
Qed.

Section Aggregation.
Variable today : string.

(** The three sums of the inner loop, each on its own. *)
Lemma day_spec items :
  Balance.day items
  = (sum_left costOf items,
     sum_left (λ it, (revenue it - costOf it)%float) items,
     sum_left revenue items).
Proof.
  unfold Balance.day, sum_left.
  cut (∀ c p t,
         foldl (λ '(dayCost, dayProfit, dayTotal) it,
                  let costUnit := default 0%float (Balance.costAtSale it) in
                  let rev := (Balance.price it * Balance.qty it)%float in
                  let cost := (costUnit * Balance.qty it)%float in
                  ((dayCost + cost)%float, (dayProfit + (rev - cost))%float,
                   (dayTotal + rev)%float))
               (c, p, t) items
         = (foldl (λ a it, (a + costOf it)%float) c items,
            foldl (λ a it, (a + (revenue it - costOf it))%float) p items,
            foldl (λ a it, (a + revenue it)%float) t items)).
  { intros H. apply H. }
  induction items as [|it items IH]; intros c p t; simpl; [done|].
  by rewrite IH.
Qed.

Lemma get_None k (m : list (string * Balance.Acc)) :
  Balance.get k m = None ↔ k ∉ m.*1.
Proof.
  induction m as [|e m IH].
  - split; [intros _; apply not_elem_of_nil|done].
  - rewrite fmap_cons, not_elem_of_cons. simpl.
    destruct (decide (e.1 = k)) as [He|He].
    + split; [done|]. intros [Hne _]. congruence.
    + rewrite IH. split; [intros; split; [congruence|done]|by intros [_ ?]].
Qed.

Lemma get_elem_of k a (m : list (string * Balance.Acc)) :
  NoDup m.*1 → (k, a) ∈ m ↔ Balance.get k m = Some a.
Proof.
  induction m as [|[k' a'] m IH]; intros Hnd.
  - split; [by intros ?%elem_of_nil|done].
  - rewrite fmap_cons in Hnd. apply NoDup_cons in Hnd as [Hk' Hm]. simpl in Hk'.
    rewrite elem_of_cons, (IH Hm). simpl.
    destruct (decide (k' = k)) as [->|Hne].
    + split.
      * intros [[= ->]|Hg]; [done|]. apply get_None in Hk'. congruence.
      * intros [= ->]. by left.
    + split.
      * intros [[= -> ->]|Hg]; done.
      * by right.
Qed.

Lemma get_app k (m m' : list (string * Balance.Acc)) :
  Balance.get k (m ++ m')
  = match Balance.get k m with Some a => Some a | None => Balance.get k m' end.
Proof. induction m as [|e m IH]; simpl; [done|]. by case_decide. Qed.

Lemma keys_put k a (m : list (string * Balance.Acc)) : (Balance.put k a m).*1 = m.*1.
Proof.
  unfold Balance.put. rewrite <- list_fmap_compose. apply list_fmap_ext.
  intros i e _. simpl. by case_decide.
Qed.

Lemma get_put k k' a (m : list (string * Balance.Acc)) :
  Balance.get k' (Balance.put k a m)
  = if decide (k' = k) then (if Balance.get k m is Some _ then Some a else None)
    else Balance.get k' m.
Proof.
  induction m as [|[k0 a0] m IH]; simpl; [by case_decide|].
  rewrite IH. repeat (case_decide; simplify_eq/=); done.
Qed.

Lemma step_keys m s :
  (Balance.step today m s).*1
  = if decide (day_of today s ∈ m.*1) then m.*1 else m.*1 ++ [day_of today s].
Proof.
  unfold Balance.step. fold (day_of today s).
  destruct (Balance.get (day_of today s) m) as [a|] eqn:Hg.
  - destruct (Balance.day _) as [[c p] t]. rewrite keys_put.
    rewrite decide_True; [done|].
    destruct (decide (day_of today s ∈ m.*1)) as [|Hn]; [done|].
    apply get_None in Hn. congruence.
  - destruct (Balance.day _) as [[c p] t]. rewrite keys_put, fmap_app.
    apply get_None in Hg. by rewrite decide_False.
Qed.

Lemma step_NoDup m s : NoDup m.*1 → NoDup (Balance.step today m s).*1.
Proof.
  intros Hm. rewrite step_keys. case_decide as Hd; [done|].
  apply NoDup_app. split_and!; [done| |apply NoDup_singleton].
  intros k Hk ->%list_elem_of_singleton. done.
Qed.

Lemma step_get k m s :
  Balance.get k (Balance.step today m s)
  = if decide (k = day_of today s)
    then Some (add_sale (default zero (Balance.get k m)) s)
    else Balance.get k m.
Proof.
  unfold Balance.step. fold (day_of today s). rewrite day_spec.
  destruct (Balance.get (day_of today s) m) as [a|] eqn:Hg.
  - rewrite get_put. case_decide as Hk; [|done]. subst k. by rewrite Hg.
  - rewrite get_put. destruct (decide (k = day_of today s)) as [->|Hk].
    + rewrite get_app, Hg. simpl. by rewrite decide_True.
    + rewrite get_app. destruct (Balance.get k m); [done|]. simpl.
      by rewrite decide_False.
Qed.

Lemma agg_NoDup sales m :
  NoDup m.*1 → NoDup (foldl (Balance.step today) m sales).*1.
Proof.
  revert m. induction sales as [|s sales IH]; intros m Hm; [done|].
  simpl. by apply IH, step_NoDup.
Qed.

(** The accumulator of a day after the loop: the one it had, with the
    sales of the day added in the order of the list. *)
Lemma agg_get k sales m :
  Balance.get k (foldl (Balance.step today) m sales)
  = if decide (is_Some (Balance.get k m) ∨ Exists (λ s, day_of today s = k) sales)
    then Some (foldl add_sale (default zero (Balance.get k m)) (on_day today k sales))
    else None.
Proof.
  unfold on_day. revert m. induction sales as [|s sales IH]; intros m; simpl.
  - destruct (Balance.get k m) as [a|] eqn:Hg.
    + by rewrite decide_True by (left; eauto).
    + rewrite decide_False; [done|]. intros [[? [=]]|H%Exists_nil]; done.
  - rewrite IH, step_get.
    destruct (decide (k = day_of today s)) as [->|Hk].
    + rewrite !decide_True by eauto using Exists_cons_hd.
      by rewrite filter_cons_True.
    + rewrite filter_cons_False by congruence.
      apply decide_ext. rewrite Exists_cons. split; [tauto|].
      intros [?|[?|?]]; [tauto|congruence|tauto].
Qed.
End Aggregation.

Lemma grouped_keys_NoDup today sales : NoDup (Balance.grouped today sales).*1.
Proof.
  unfold Balance.grouped. rewrite sort_by_Permutation.
  apply agg_NoDup. apply NoDup_nil_2.
Qed.

Lemma grouped_elem_of today sales date acc :
  (date, acc) ∈ Balance.grouped today sales ↔
  Exists (λ s, day_of today s = date) sales ∧ acc = row today date sales.
Proof.
  unfold Balance.grouped, row. rewrite sort_by_Permutation.
  rewrite get_elem_of by (apply agg_NoDup, NoDup_nil_2).
  rewrite agg_get. simpl. case_decide as Hd.
  - split.
    + intros [= <-]. split; [|done]. destruct Hd as [[? [=]]|]; done.
    + by intros [_ ->].
  - split; [done|]. intros [He _]. destruct Hd. by right.
Qed.

Lemma StronglySorted_weaken {A} (R R' : A → A → Prop) l :
  (∀ a b, R a b → R' a b) → StronglySorted R l → StronglySorted R' l.
Proof.
  intros HR. induction 1 as [|x l _ IH Hx]; constructor; [done|].
  eapply Forall_impl; [exact Hx|]. intros y. apply HR.
Qed.

Lemma grouped_sorted today sales : StronglySorted later (Balance.grouped today sales).
Proof. apply sort_by_sorted, agg_NoDup, NoDup_nil_2. Qed.

(** Two balances with the same rows are the same list: the order of the
    rows is that of their dates. *)
Lemma grouped_ext today sales today' sales' :
  (∀ date acc, (date, acc) ∈ Balance.grouped today sales ↔
               (date, acc) ∈ Balance.grouped today' sales') →
  Balance.grouped today sales = Balance.grouped today' sales'.
Proof.
  intros Hrows.
  apply (StronglySorted_unique_strong later); [|apply grouped_sorted..|].
  - intros x1 x2 _ _ H12 H21. unfold later in *.
    destruct (irreflexivity (strict String.le) x1.1). by etrans.
  - apply NoDup_Permutation.
    + eapply NoDup_fmap_1, grouped_keys_NoDup.
    + eapply NoDup_fmap_1, grouped_keys_NoDup.
    + intros [date acc]. apply Hrows.
Qed.

Lemma Exists_on_day today date sales :
  Exists (λ s, day_of today s = date) sales ↔ on_day today date sales ≠ [].
Proof.
  unfold on_day. induction sales as [|s sales IH]; simpl.
  - rewrite Exists_nil. done.
  - rewrite Exists_cons. destruct (decide (day_of today s = date)) as [Hd|Hd].
    + rewrite filter_cons_True by done. split; [done|]. intros _. by left.
    + rewrite filter_cons_False by done. rewrite <- IH. tauto.
Qed.

Lemma step_today today today' m s :
  is_Some (Balance.localDate s) → Balance.step today m s = Balance.step today' m s.
Proof. intros [d Hd]. unfold Balance.step. by rewrite Hd. Qed.

(** Three sales of whole amounts on two days, the later day first. *)
Example grouped_two_days today :
  Balance.grouped today
    (Balance.read <$>
     [Sale.mk [SaleItem.mk "001" "Pan dulce" 2 150 (Some 100)] 300 None (Some "2024-05-01");
      Sale.mk [SaleItem.mk "PAN" "Pan" 1 800 (Some 0)] 800 None (Some "2024-05-02");
      Sale.mk [SaleItem.mk "001" "Pan dulce" 1 150 (Some 100)] 150 None (Some "2024-05-01")])
  = [("2024-05-02", Balance.mkAcc 0 800 800);
     ("2024-05-01", Balance.mkAcc 300 150 450)].
Proof. reflexivity. Qed.

(** *** Rounding a whole number to a double *)

Lemma shiftl_Z n p : Z.pos (shiftl n p) = Z.pos p * 2 ^ Z.of_nat n.
Proof.
  unfold shiftl. induction n as [|n IH]; [simpl; lia|].
  rewrite Nat2Z.inj_succ, Z.pow_succ_r by lia.
  change (Nat.iter (S n) xO p) with (xO (Nat.iter n xO p)).
  rewrite Pos2Z.inj_xO, IH. lia.
Qed.

Lemma shiftl_add n m p : shiftl n (shiftl m p) = shiftl (n + m) p.
Proof. unfold shiftl. by rewrite Nat.iter_add. Qed.

Lemma Pos_iter_shiftl k p : Pos.iter xO p k = shiftl (Pos.to_nat k) p.
Proof. unfold shiftl. apply Pos2Nat.inj_iter. Qed.

Lemma digits_shiftl n p :
  Z.pos (SpecFloat.digits2_pos (shiftl n p))
  = Z.pos (SpecFloat.digits2_pos p) + Z.of_nat n.
Proof.
  unfold shiftl. induction n as [|n IH]; [simpl; lia|].
  change (Nat.iter (S n) xO p) with (xO (Nat.iter n xO p)). simpl SpecFloat.digits2_pos.
  rewrite Pos2Z.inj_succ, IH. lia.
Qed.

Lemma digits_bounds p :
  2 ^ (Z.pos (SpecFloat.digits2_pos p) - 1) <= Z.pos p
  < 2 ^ Z.pos (SpecFloat.digits2_pos p).
Proof.
  induction p as [p IH|p IH|]; simpl SpecFloat.digits2_pos.
  - rewrite Pos2Z.inj_succ.
    replace (Z.succ (Z.pos (SpecFloat.digits2_pos p)) - 1)
      with (Z.succ (Z.pos (SpecFloat.digits2_pos p) - 1)) by lia.
    rewrite !Z.pow_succ_r by lia. lia.
  - rewrite Pos2Z.inj_succ.
    replace (Z.succ (Z.pos (SpecFloat.digits2_pos p)) - 1)
      with (Z.succ (Z.pos (SpecFloat.digits2_pos p) - 1)) by lia.
    rewrite !Z.pow_succ_r by lia. lia.
  - simpl. lia.
Qed.

Lemma digits_le p k :
  0 <= k → Z.pos p < 2 ^ k → Z.pos (SpecFloat.digits2_pos p) <= k.
Proof.
  intros Hk Hp. pose proof (digits_bounds p) as [Hlo _].
  destruct (Z_le_gt_dec (Z.pos (SpecFloat.digits2_pos p)) k) as [|Hgt]; [done|].
  assert (2 ^ k <= 2 ^ (Z.pos (SpecFloat.digits2_pos p) - 1))
    by (apply Z.pow_le_mono_r; lia).
  lia.
Qed.

Lemma iter_pos_nat {A} (f : A → A) k x :
  SpecFloat.iter_pos f k x = Nat.iter (Pos.to_nat k) f x.
Proof.
  revert x. induction k as [k IH|k IH|]; intros x; cbn [SpecFloat.iter_pos].
  - rewrite !IH, Pos2Nat.inj_xI. rewrite <- Nat.iter_add, <- Nat.iter_succ_r.
    f_equal. lia.
  - rewrite !IH, Pos2Nat.inj_xO. rewrite <- Nat.iter_add. f_equal. lia.
  - done.
Qed.

Lemma shr_shiftl n m :
  Nat.iter n SpecFloat.shr_1
    (SpecFloat.Build_shr_record (Z.pos (shiftl n m)) false false)
  = SpecFloat.Build_shr_record (Z.pos m) false false.
Proof.
  induction n as [|n IH]; [done|].
  rewrite Nat.iter_succ_r. unfold shiftl. simpl Nat.iter at 2.
  simpl SpecFloat.shr_1. apply IH.
Qed.

Lemma fexp_53 d e :
  -1074 <= d + e - 53 →
  SpecFloat.fexp FloatOps.prec FloatOps.emax (d + e) = d + e - 53.
Proof.
  unfold SpecFloat.fexp, SpecFloat.emin, FloatOps.prec, FloatOps.emax. lia.
Qed.

Lemma shr_fexp_exact m (n : nat) e :
  Z.pos (SpecFloat.digits2_pos m) = 53 → -1074 <= e →
  SpecFloat.shr_fexp FloatOps.prec FloatOps.emax (Z.pos (shiftl n m)) e
    SpecFloat.loc_Exact
  = (SpecFloat.Build_shr_record (Z.pos m) false false, e + Z.of_nat n).
Proof.
  intros Hd He. unfold SpecFloat.shr_fexp. simpl SpecFloat.Zdigits2.
  rewrite digits_shiftl, Hd, fexp_53 by lia.
  replace (53 + Z.of_nat n + e - 53 - e) with (Z.of_nat n) by lia.
  simpl SpecFloat.shr_record_of_loc. unfold SpecFloat.shr.
  destruct n as [|n]; [simpl; f_equal; lia|].
  change (Z.of_nat (S n)) with (Z.pos (Pos.of_succ_nat n)). cbv beta iota.
  by rewrite iter_pos_nat, SuccNat2Pos.id_succ, shr_shiftl.
Qed.

Lemma round_aux_exact s m (n : nat) e :
  Z.pos (SpecFloat.digits2_pos m) = 53 → -1074 <= e → e + Z.of_nat n <= 971 →
  SpecFloat.binary_round_aux FloatOps.prec FloatOps.emax s (Z.pos (shiftl n m)) e
    SpecFloat.loc_Exact
  = SpecFloat.S754_finite s m (e + Z.of_nat n).
Proof.
  intros Hd He Hmax. unfold SpecFloat.binary_round_aux.
  rewrite shr_fexp_exact by done. simpl SpecFloat.shr_m.
  simpl SpecFloat.loc_of_shr_record. simpl SpecFloat.round_nearest_even.
  rewrite (shr_fexp_exact m 0) by (done || lia). simpl SpecFloat.shr_m.
  unfold FloatOps.prec, FloatOps.emax.
  replace (e + Z.of_nat n + Z.of_nat 0) with (e + Z.of_nat n) by lia.
  destruct (Z.leb_spec (e + Z.of_nat n) (1024 - 53)); [done|lia].
Qed.

Lemma dn_Z p : Z.of_nat (dn p) = Z.pos (SpecFloat.digits2_pos p).
Proof. unfold dn. apply positive_nat_Z. Qed.

Lemma dn_le p : Z.pos p < 2 ^ 53 → (1 <= dn p <= 53)%nat.
Proof.
  intros Hp. pose proof (digits_le p 53 ltac:(lia) Hp). pose proof (dn_Z p). lia.
Qed.

(** Rounding [p × 2^k × 2^-k], for [p] below 2^53, gives the one double
    whose value is [p]. *)
Lemma round_scaled s p (k : nat) :
  Z.pos p < 2 ^ 53 → (k <= 1074)%nat →
  SpecFloat.binary_round FloatOps.prec FloatOps.emax s (shiftl k p) (- Z.of_nat k)
  = SpecFloat.S754_finite s (shiftl (53 - dn p) p) (Z.of_nat (dn p) - 53).
Proof.
  intros Hp Hk. pose proof (dn_le p Hp) as Hd. pose proof (dn_Z p) as HdZ.
  unfold SpecFloat.binary_round.
  rewrite digits_shiftl, <- HdZ.
  replace (Z.of_nat (dn p) + Z.of_nat k + - Z.of_nat k)
    with (Z.of_nat (dn p) + 0) by lia.
  rewrite fexp_53 by lia. unfold SpecFloat.shl_align.
  assert (Z.pos (SpecFloat.digits2_pos (shiftl (53 - dn p) p)) = 53) as Hcanon
    by (rewrite digits_shiftl; lia).
  destruct (Z.of_nat (dn p) + 0 - 53 - - Z.of_nat k) as [|q|q] eqn:Hq.
  - replace (shiftl k p) with (shiftl (k - (53 - dn p)) (shiftl (53 - dn p) p))
      by (rewrite shiftl_add; f_equal; lia).
    rewrite round_aux_exact by (done || lia). f_equal. lia.
  - replace (shiftl k p) with (shiftl (k - (53 - dn p)) (shiftl (53 - dn p) p))
      by (rewrite shiftl_add; f_equal; lia).
    rewrite round_aux_exact by (done || lia). f_equal. lia.
  - rewrite Pos_iter_shiftl, shiftl_add.
    replace (Pos.to_nat q + k)%nat with (53 - dn p)%nat by lia.
    change (shiftl (53 - dn p) p) with (shiftl 0 (shiftl (53 - dn p) p)) at 1.
    rewrite round_aux_exact by (done || lia). f_equal. lia.
Qed.

Lemma SFofZ_pos p :
  Z.pos p < 2 ^ 53 →
  SFofZ (Z.pos p)
  = SpecFloat.S754_finite false (shiftl (53 - dn p) p) (Z.of_nat (dn p) - 53).
Proof. intros Hp. exact (round_scaled false p 0 Hp ltac:(lia)). Qed.

Lemma SFofZ_neg p :
  Z.pos p < 2 ^ 53 →
  SFofZ (Z.neg p)
  = SpecFloat.S754_finite true (shiftl (53 - dn p) p) (Z.of_nat (dn p) - 53).
Proof. intros Hp. exact (round_scaled true p 0 Hp ltac:(lia)). Qed.

(** Rounding [c × 2^k × 2^-k] gives the double of the whole number [c]. *)
Lemma SFofZ_scaled c (k : nat) :
  Z.abs c < 2 ^ 53 → (k <= 1074)%nat →
  SpecFloat.binary_normalize FloatOps.prec FloatOps.emax
    (c * 2 ^ Z.of_nat k) (- Z.of_nat k) false
  = SFofZ c.
Proof.
  intros Hc Hk. destruct c as [|p|p]; [done|..].
  - rewrite SFofZ_pos by done. rewrite <- shiftl_Z. simpl SpecFloat.binary_normalize.
    by rewrite round_scaled by (done || lia).
  - rewrite SFofZ_neg by done.
    replace (Z.neg p * 2 ^ Z.of_nat k) with (Z.neg (shiftl k p))
      by (rewrite <- !Pos2Z.opp_pos, shiftl_Z; lia).
    simpl SpecFloat.binary_normalize.
    by rewrite round_scaled by (done || lia).
Qed.

Lemma SFofZ_valid c :
  Z.abs c < 2 ^ 53 → SpecFloat.valid_binary FloatOps.prec FloatOps.emax (SFofZ c) = true.
Proof.
  intros Hc. destruct c as [|p|p]; [done|..].
  - rewrite SFofZ_pos by done. pose proof (dn_le p Hc). pose proof (dn_Z p).
    simpl. unfold SpecFloat.bounded, SpecFloat.canonical_mantissa.
    rewrite digits_shiftl, fexp_53 by lia.
    apply andb_true_intro. split; [apply Z.eqb_eq; lia|].
    apply Z.leb_le. unfold FloatOps.prec, FloatOps.emax. lia.
  - rewrite SFofZ_neg by done. pose proof (dn_le p Hc). pose proof (dn_Z p).
    simpl. unfold SpecFloat.bounded, SpecFloat.canonical_mantissa.
    rewrite digits_shiftl, fexp_53 by lia.
    apply andb_true_intro. split; [apply Z.eqb_eq; lia|].
    apply Z.leb_le. unfold FloatOps.prec, FloatOps.emax. lia.
Qed.

Lemma SFofZ_finite a :
  a ≠ 0 → Z.abs a < 2 ^ 53 →
  let p := Z.to_pos (Z.abs a) in
  SFofZ a = SpecFloat.S754_finite (a <? 0)%Z (shiftl (53 - dn p) p) (Z.of_nat (dn p) - 53).
Proof.
  intros Ha Hb. destruct a as [|p|p]; [done|..]; simpl.
  - by apply SFofZ_pos.
  - by apply SFofZ_neg.
Qed.

Lemma cond_Zopp_sign a x :
  a ≠ 0 → SpecFloat.cond_Zopp (a <? 0)%Z (Z.pos (Z.to_pos (Z.abs a)) * x) = a * x.
Proof. intros Ha. destruct a as [|p|p]; [done|..]; simpl; lia. Qed.

Lemma shl_align_fst mx ex ez :
  ez <= ex →
  Z.pos (fst (SpecFloat.shl_align mx ex ez)) = Z.pos mx * 2 ^ (ex - ez).
Proof.
  intros Hle. unfold SpecFloat.shl_align.
  destruct (ez - ex) as [|q|q] eqn:Hq; simpl fst.
  - replace (ex - ez) with 0 by lia. lia.
  - lia.
  - rewrite Pos_iter_shiftl, shiftl_Z, positive_nat_Z. f_equal. f_equal. lia.
Qed.

(** The sum and the difference of two doubles of whole numbers, when the
    exact result is below 2^53, is its double: nothing is rounded. *)
Lemma SFaddsub_exact (op : Z → Z → Z) a b :
  a ≠ 0 → b ≠ 0 →
  Z.abs a < 2 ^ 53 → Z.abs b < 2 ^ 53 → Z.abs (op a b) < 2 ^ 53 →
  (∀ x y z, op (x * z) (y * z) = op x y * z) →
  let pa := Z.to_pos (Z.abs a) in
  let pb := Z.to_pos (Z.abs b) in
  let ex := Z.of_nat (dn pa) - 53 in
  let ey := Z.of_nat (dn pb) - 53 in
  let ez := Z.min ex ey in
  SpecFloat.binary_normalize FloatOps.prec FloatOps.emax
    (op (SpecFloat.cond_Zopp (a <? 0)%Z
           (Z.pos (fst (SpecFloat.shl_align (shiftl (53 - dn pa) pa) ex ez))))
        (SpecFloat.cond_Zopp (b <? 0)%Z
           (Z.pos (fst (SpecFloat.shl_align (shiftl (53 - dn pb) pb) ey ez)))))
    ez false
  = SFofZ (op a b).
Proof.
  intros Ha Hb Ha53 Hb53 Hc53 Hop pa pb ex ey ez.
  assert (Z.pos pa < 2 ^ 53) as Hpa by (unfold pa; lia).
  assert (Z.pos pb < 2 ^ 53) as Hpb by (unfold pb; lia).
  pose proof (dn_le pa Hpa). pose proof (dn_le pb Hpb).
  rewrite !shl_align_fst, !shiftl_Z by lia.
  rewrite <- !Z.mul_assoc, <- !Z.pow_add_r by lia.
  replace (Z.of_nat (53 - dn pa) + (ex - ez)) with (Z.of_nat (Z.to_nat (- ez))) by lia.
  replace (Z.of_nat (53 - dn pb) + (ey - ez)) with (Z.of_nat (Z.to_nat (- ez))) by lia.
  unfold pa, pb. rewrite !cond_Zopp_sign, Hop by done.
  replace ez with (- Z.of_nat (Z.to_nat (- ez))) at 2 by lia.
  apply SFofZ_scaled; [done|lia].
Qed.

Lemma SFofZ_0 : SFofZ 0 = SpecFloat.S754_zero false.
Proof. reflexivity. Qed.

Lemma SFadd_exact a b :
  Z.abs a < 2 ^ 53 → Z.abs b < 2 ^ 53 → Z.abs (a + b) < 2 ^ 53 →
  SpecFloat.SFadd FloatOps.prec FloatOps.emax (SFofZ a) (SFofZ b) = SFofZ (a + b).
Proof.
  intros Ha Hb Hc.
  destruct (decide (a = 0)) as [->|Ha0]; [|destruct (decide (b = 0)) as [->|Hb0]].
  - rewrite SFofZ_0, Z.add_0_l. destruct (decide (b = 0)) as [->|Hb0]; [done|].
    by rewrite (SFofZ_finite b).
  - rewrite SFofZ_0, Z.add_0_r. by rewrite (SFofZ_finite a).
  - rewrite (SFofZ_finite a), (SFofZ_finite b) by done.
    cbv zeta. unfold SpecFloat.SFadd.
    apply (SFaddsub_exact Z.add a b); [done..|]. intros; lia.
Qed.

Lemma SFsub_exact a b :
  Z.abs a < 2 ^ 53 → Z.abs b < 2 ^ 53 → Z.abs (a - b) < 2 ^ 53 →
  SpecFloat.SFsub FloatOps.prec FloatOps.emax (SFofZ a) (SFofZ b) = SFofZ (a - b).
Proof.
  intros Ha Hb Hc.
  destruct (decide (a = 0)) as [->|Ha0]; [|destruct (decide (b = 0)) as [->|Hb0]].
  - rewrite SFofZ_0, Z.sub_0_l. destruct (decide (b = 0)) as [->|Hb0]; [done|].
    rewrite (SFofZ_finite b), (SFofZ_finite (- b)) by lia. cbv zeta. simpl.
    rewrite Z.abs_opp. f_equal. destruct b; done.
  - rewrite SFofZ_0, Z.sub_0_r. by rewrite (SFofZ_finite a).
  - rewrite (SFofZ_finite a), (SFofZ_finite b) by done.
    cbv zeta. unfold SpecFloat.SFsub.
    apply (SFaddsub_exact Z.sub a b); [done..|]. intros; lia.
Qed.

Lemma dn_mul p q : (dn p + dn q <= dn (p * q) + 1)%nat.
Proof.
  pose proof (digits_bounds p) as [Hp _]. pose proof (digits_bounds q) as [Hq _].
  pose proof (digits_bounds (p * q)) as [_ Hpq].
  rewrite <- !dn_Z in *. rewrite Pos2Z.inj_mul in Hpq.
  assert (1 <= dn p)%nat by (unfold dn; lia).
  assert (1 <= dn q)%nat by (unfold dn; lia).
  assert (2 ^ (Z.of_nat (dn p) - 1 + (Z.of_nat (dn q) - 1)) < 2 ^ Z.of_nat (dn (p * q)))
    as Hlt.
  { rewrite Z.pow_add_r by lia. nia. }
  apply Z.pow_lt_mono_r_iff in Hlt; lia.
Qed.

(** The product of two doubles of whole numbers that are not negative,
    when the exact product is below 2^53, is its double. *)
Lemma SFmul_exact a b :
  0 <= a < 2 ^ 53 → 0 <= b < 2 ^ 53 → a * b < 2 ^ 53 →
  SpecFloat.SFmul FloatOps.prec FloatOps.emax (SFofZ a) (SFofZ b) = SFofZ (a * b).
Proof.
  intros Ha Hb Hc.
  destruct a as [|p|p]; [|destruct b as [|q|q]|]; try lia.
  - rewrite SFofZ_0, Z.mul_0_l, SFofZ_0. destruct b as [|q|q]; [done| |lia].
    by rewrite SFofZ_pos by lia.
  - rewrite SFofZ_0, Z.mul_0_r, SFofZ_0. by rewrite SFofZ_pos by lia.
  - change (Z.pos p * Z.pos q) with (Z.pos (p * q)) in *.
    rewrite !SFofZ_pos by lia. simpl SpecFloat.SFmul.
    pose proof (dn_le p ltac:(lia)). pose proof (dn_le q ltac:(lia)).
    pose proof (dn_le (p * q) ltac:(lia)). pose proof (dn_mul p q).
    replace (shiftl (53 - dn p) p * shiftl (53 - dn q) q)%positive
      with (shiftl (53 + dn (p * q) - dn p - dn q) (shiftl (53 - dn (p * q)) (p * q))).
    + rewrite round_aux_exact; [f_equal; lia|rewrite digits_shiftl, <- dn_Z; lia|lia..].
    + apply Pos2Z.inj. rewrite Pos2Z.inj_mul, !shiftl_Z, Pos2Z.inj_mul.
      replace (Z.of_nat (53 + dn (p * q) - dn p - dn q))
        with (Z.of_nat (53 - dn p) + Z.of_nat (53 - dn q) - Z.of_nat (53 - dn (p * q)))
        by lia.
      replace (Z.pos p * 2 ^ Z.of_nat (53 - dn p) * (Z.pos q * 2 ^ Z.of_nat (53 - dn q)))
        with (Z.pos p * Z.pos q
              * 2 ^ (Z.of_nat (53 - dn p) + Z.of_nat (53 - dn q)))
        by (rewrite Z.pow_add_r by lia; lia).
      rewrite <- Z.mul_assoc, <- Z.pow_add_r by lia. f_equal. f_equal. lia.
Qed.

(** *** The doubles of whole numbers *)

Lemma Prim2SF_Number a : Z.abs a < 2 ^ 53 → FloatOps.Prim2SF (Number a) = SFofZ a.
Proof. intros Ha. apply FloatAxioms.Prim2SF_SF2Prim, SFofZ_valid, Ha. Qed.

Lemma Number_add a b :
  Z.abs a < 2 ^ 53 → Z.abs b < 2 ^ 53 → Z.abs (a + b) < 2 ^ 53 →
  (Number a + Number b)%float = Number (a + b).
Proof.
  intros Ha Hb Hc. apply FloatAxioms.Prim2SF_inj.
  rewrite FloatAxioms.add_spec, !Prim2SF_Number by done.
  by apply SFadd_exact.
Qed.

Lemma Number_sub a b :
  Z.abs a < 2 ^ 53 → Z.abs b < 2 ^ 53 → Z.abs (a - b) < 2 ^ 53 →
  (Number a - Number b)%float = Number (a - b).
Proof.
  intros Ha Hb Hc. apply FloatAxioms.Prim2SF_inj.
  rewrite FloatAxioms.sub_spec, !Prim2SF_Number by done.
  by apply SFsub_exact.
Qed.

Lemma Number_mul a b :
  0 <= a < 2 ^ 53 → 0 <= b < 2 ^ 53 → a * b < 2 ^ 53 →
  (Number a * Number b)%float = Number (a * b).
Proof.
  intros Ha Hb Hc. apply FloatAxioms.Prim2SF_inj.
  rewrite FloatAxioms.mul_spec, !Prim2SF_Number by lia.
  by apply SFmul_exact.
Qed.

(** *** The balance of sales of whole amounts *)

Lemma default_Number c : default 0%float (Number <$> c) = Number (default 0 c).
Proof. by destruct c. Qed.

Lemma whole_item_nonneg i : whole_item i → 0 <= whole_revenue i ∧ 0 <= whole_cost i.
Proof. unfold whole_item, whole_revenue, whole_cost. intros (? & ? & ?). nia. Qed.

Lemma revenue_read i :
  whole_item i → whole_revenue i < 2 ^ 53 →
  revenue (Balance.readItem i) = Number (whole_revenue i).
Proof.
  intros (? & ? & ?) Hb. unfold revenue, whole_revenue in *. simpl.
  by apply Number_mul.
Qed.

Lemma costOf_read i :
  whole_item i → whole_cost i < 2 ^ 53 →
  costOf (Balance.readItem i) = Number (whole_cost i).
Proof.
  intros (? & ? & ?) Hb. unfold costOf, whole_cost in *. simpl.
  rewrite default_Number. by apply Number_mul.
Qed.

Lemma profit_read i :
  whole_item i → whole_revenue i + whole_cost i < 2 ^ 53 →
  (revenue (Balance.readItem i) - costOf (Balance.readItem i))%float
  = Number (whole_revenue i - whole_cost i).
Proof.
  intros Hi Hb. pose proof (whole_item_nonneg i Hi) as [? ?].
  rewrite revenue_read, costOf_read by (done || lia). apply Number_sub; lia.
Qed.

Lemma sum_items_nonneg (h : SaleItem.t → Z) items :
  Forall (λ i, 0 <= h i) items → 0 <= sum_items h items.
Proof. induction 1; simpl; lia. Qed.

(** A sum that the loop takes of whole numbers is their sum, as long as
    the amounts, in absolute value, add up to less than 2^53. *)
Lemma sum_left_whole (f : Balance.Item → float) (g h : SaleItem.t → Z) items a0 :
  Forall (λ i, (h i < 2 ^ 53 → f (Balance.readItem i) = Number (g i)) ∧
               Z.abs (g i) <= h i) items →
  Z.abs a0 + sum_items h items < 2 ^ 53 →
  foldl (λ a it, (a + f it)%float) (Number a0) (Balance.readItem <$> items)
  = Number (a0 + sum_items g items) ∧
  Z.abs (a0 + sum_items g items) <= Z.abs a0 + sum_items h items.
Proof.
  intros Hall. revert a0.
  induction Hall as [|i items [Hf Hg] Hall IH]; intros a0 Hb; simpl in *.
  - rewrite Z.add_0_r. split; [done|lia].
  - assert (0 <= sum_items h items) as Hnn.
    { apply sum_items_nonneg. eapply Forall_impl; [exact Hall|].
      intros j [_ Hj]. simpl in Hj. lia. }
    rewrite Hf, Number_add by lia.
    destruct (IH (a0 + g i)) as [Heq Hle]; [lia|].
    rewrite <- Z.add_assoc in Heq. split; [exact Heq|lia].
Qed.

(** The three sums over the items of one sale. *)
Lemma sale_sums_whole s :
  Forall whole_item (Sale.items s) →
  sum_items (λ i, whole_revenue i + whole_cost i) (Sale.items s) < 2 ^ 53 →
  sum_left costOf (Balance.items (Balance.read s))
  = Number (sum_items whole_cost (Sale.items s)) ∧
  sum_left (λ it, (revenue it - costOf it)%float) (Balance.items (Balance.read s))
  = Number (sum_items (λ i, whole_revenue i - whole_cost i) (Sale.items s)) ∧
  sum_left revenue (Balance.items (Balance.read s))
  = Number (sum_items whole_revenue (Sale.items s)).
Proof.
  intros Hall Hb. unfold sum_left. simpl Balance.items.
  change 0%float with (Number 0).
  split_and!.
  - refine (proj1 (sum_left_whole costOf whole_cost
                     (λ i, whole_revenue i + whole_cost i) _ 0 _ _)); [|simpl; lia].
    eapply Forall_impl; [exact Hall|]. intros i Hi.
    pose proof (whole_item_nonneg i Hi) as [? ?]. simpl.
    split; [intros; apply costOf_read; [done|lia]|lia].
  - refine (proj1 (sum_left_whole (λ it, (revenue it - costOf it)%float)
                     (λ i, whole_revenue i - whole_cost i)
                     (λ i, whole_revenue i + whole_cost i) _ 0 _ _)); [|simpl; lia].
    eapply Forall_impl; [exact Hall|]. intros i Hi.
    pose proof (whole_item_nonneg i Hi) as [? ?]. simpl.
    split; [intros; by apply profit_read|lia].
  - refine (proj1 (sum_left_whole revenue whole_revenue
                     (λ i, whole_revenue i + whole_cost i) _ 0 _ _)); [|simpl; lia].
    eapply Forall_impl; [exact Hall|]. intros i Hi.
    pose proof (whole_item_nonneg i Hi) as [? ?]. simpl.
    split; [intros; apply revenue_read; [done|lia]|lia].
Qed.

Lemma sale_sums_bounds s :
  Forall whole_item (Sale.items s) →
  let V := sum_items (λ i, whole_revenue i + whole_cost i) (Sale.items s) in
  0 <= sum_items whole_cost (Sale.items s) <= V ∧
  0 <= sum_items whole_revenue (Sale.items s) <= V ∧
  sum_items (λ i, whole_revenue i - whole_cost i) (Sale.items s)
  = sum_items whole_revenue (Sale.items s) - sum_items whole_cost (Sale.items s).
Proof.
  intros Hall. cbv zeta.
  induction Hall as [|i items Hi _ IH]; simpl; [lia|].
  pose proof (whole_item_nonneg i Hi) as [? ?]. lia.
Qed.

(** The accumulator of whole sales, added in any order, holds the exact
    sums. *)
Lemma foldl_add_sale_whole l c p t b :
  Forall (λ s, Forall whole_item (Sale.items s)) l →
  Z.abs c <= b → Z.abs p <= b → Z.abs t <= b → b + volume l < 2 ^ 53 →
  foldl add_sale (Balance.mkAcc (Number c) (Number p) (Number t)) (Balance.read <$> l)
  = Balance.mkAcc
      (Number (c + sum_sales whole_cost l))
      (Number (p + (sum_sales whole_revenue l - sum_sales whole_cost l)))
      (Number (t + sum_sales whole_revenue l)).
Proof.
  intros Hall. revert c p t b.
  induction Hall as [|s l Hs Hl IH]; intros c p t b Hc Hp Ht Hb.
  - simpl. by rewrite Z.sub_diag, !Z.add_0_r.
  - assert (0 <= volume l) as Hvol.
    { clear -Hl. unfold volume. induction Hl as [|s' l' Hs' _ IH']; simpl; [lia|].
      pose proof (sale_sums_bounds s' Hs'). simpl in *. lia. }
    unfold volume in Hb, Hvol. simpl in Hb.
    pose proof (sale_sums_bounds s Hs) as (HC & HR & HP). cbv zeta in *.
    destruct (sale_sums_whole s Hs ltac:(lia)) as (EC & EP & ER).
    rewrite fmap_cons. simpl foldl. unfold add_sale at 2. simpl Balance.cost.
    simpl Balance.profit. simpl Balance.total.
    rewrite EC, EP, ER, HP, !Number_add by lia.
    rewrite (IH _ _ _
               (b + sum_items (λ i, whole_revenue i + whole_cost i) (Sale.items s)))
      by (unfold volume; lia).
    simpl. f_equal; f_equal; lia.
Qed.

Lemma on_day_read today date sales :
  on_day today date (Balance.read <$> sales)
  = Balance.read <$> on_date today date sales.
Proof.
  unfold on_day, on_date. induction sales as [|s sales IH]; [done|].
  rewrite fmap_cons, !filter_cons, IH. unfold day_of at 1. simpl.
  repeat case_decide; done.
Qed.

Lemma sum_sales_Permutation f sales sales' :
  sales ≡ₚ sales' → sum_sales f sales = sum_sales f sales'.
Proof. unfold sum_sales. induction 1; simpl; lia. Qed.

Lemma whole_Permutation sales sales' : sales ≡ₚ sales' → whole sales → whole sales'.
Proof.
  intros Hperm [Hall Hvol]. split; [by rewrite <- Hperm|].
  unfold volume in *. by rewrite <- (sum_sales_Permutation _ _ _ Hperm).
Qed.

Lemma volume_nonneg sales :
  Forall (λ s, Forall whole_item (Sale.items s)) sales → 0 <= volume sales.
Proof.
  unfold volume. induction 1 as [|s l Hs _ IH]; simpl; [lia|].
  pose proof (sale_sums_bounds s Hs). simpl in *. lia.
Qed.

Lemma whole_on_date today date sales :
  Forall (λ s, Forall whole_item (Sale.items s)) sales →
  Forall (λ s, Forall whole_item (Sale.items s)) (on_date today date sales) ∧
  0 <= sum_sales whole_cost (on_date today date sales)
    <= volume (on_date today date sales) ∧
  0 <= sum_sales whole_revenue (on_date today date sales)
    <= volume (on_date today date sales) ∧
  volume (on_date today date sales) <= volume sales.
Proof.
  unfold on_date, volume. induction 1 as [|s l Hs Hl IH]; simpl.
  - split; [constructor|lia].
  - pose proof (sale_sums_bounds s Hs) as (? & ? & _). cbv zeta in *.
    pose proof (volume_nonneg l Hl) as Hv. unfold volume in Hv.
    destruct IH as (IH1 & IH2 & IH3 & IH4).
    rewrite filter_cons. case_decide; simpl.
    + split; [by constructor|lia].
    + split; [done|lia].
Qed.

Lemma row_whole today date sales :
  whole sales →
  row today date (Balance.read <$> sales) = whole_row today date sales.
Proof.
  intros [Hall Hvol]. unfold row, whole_row. rewrite on_day_read.
  destruct (whole_on_date today date sales Hall) as (Hd & _ & _ & Hle).
  change zero with (Balance.mkAcc (Number 0) (Number 0) (Number 0)).
  rewrite (foldl_add_sale_whole _ 0 0 0 0) by (done || lia).
  by rewrite !Z.add_0_l.
Qed.

(** The rows of the balance of whole sales. *)
Lemma grouped_whole today sales date acc :
  whole sales →
  (date, acc) ∈ Balance.grouped today (Balance.read <$> sales) ↔
  Exists (λ s, default today (Sale.localDate s) = date) sales ∧
  acc = whole_row today date sales.
Proof.
  intros Hw. rewrite grouped_elem_of, Exists_fmap, row_whole by done. done.
Qed.

Lemma grouped_whole_Permutation today sales sales' :
  whole sales → sales ≡ₚ sales' →
  Balance.grouped today (Balance.read <$> sales')
  = Balance.grouped today (Balance.read <$> sales).
Proof.
  intros Hw Hperm. apply grouped_ext. intros date acc.
  rewrite !grouped_whole by eauto using whole_Permutation.
  unfold whole_row, on_date.
  rewrite !(sum_sales_Permutation _ _ _ (filter_Permutation _ _ _ Hperm)).
  by rewrite Hperm.
Qed.

(** C8, as the code has it.  The balance holds one row for each day on
    which the list has a sale, the day of a sale being its localDate or,
    when it has none, the current day.  The row of a day is reached from
    (0, 0, 0) by adding the sales of that day in the order of the list: each
    sale adds to the cost the sum of costAtSale × qty over its items (0
    where an item has none), to the profit the sum of price × qty −
    costAtSale × qty, and to the total the sum of price × qty, each sum
    taken from 0 in the order of the items, in doubles.  The rows come by
    strictly descending date.  Permuting the list keeps the days of the
    balance, and keeps the whole balance when the sales of each day keep
    their order.  With every sale dated the current day plays no part.
    For sales whose prices, quantities and costs are whole numbers that are
    not negative, and whose revenue and cost together stay below 2^53, the
    doubles hold the exact sums: the row of a day has as cost the sum of
    costAtSale × qty, as total the sum of price × qty and as profit the
    total minus the cost, and the balance is the same for every permutation
    of the list. *)
Theorem C8_daily_balance :
  (∀ today sales date acc,
     (date, acc) ∈ Balance.grouped today sales ↔
     Exists (λ s, default today (Balance.localDate s) = date) sales ∧
     acc = foldl add_sale (Balance.mkAcc 0 0 0)
                 (filter (λ s, default today (Balance.localDate s) = date) sales)) ∧
  (∀ items,
     Balance.day items
     = (foldl (λ a it, a + default 0 (Balance.costAtSale it) * Balance.qty it) 0 items,
        foldl (λ a it, a + (Balance.price it * Balance.qty it
                            - default 0 (Balance.costAtSale it) * Balance.qty it))
              0 items,
        foldl (λ a it, a + Balance.price it * Balance.qty it) 0 items)%float) ∧
  (∀ today sales,
     StronglySorted (λ a b, String.ltb b.1 a.1 = true) (Balance.grouped today sales)) ∧
  (∀ today sales sales',
     sales ≡ₚ sales' →
     (Balance.grouped today sales).*1 = (Balance.grouped today sales').*1) ∧
  (∀ today sales sales',
     (∀ date, on_day today date sales = on_day today date sales') →
     Balance.grouped today sales = Balance.grouped today sales') ∧
  (∀ today today' sales,
     Forall (λ s, is_Some (Balance.localDate s)) sales →
     Balance.grouped today sales = Balance.grouped today' sales) ∧
  (∀ today sales,
     whole sales →
     (∀ date acc,
        (date, acc) ∈ Balance.grouped today (Balance.read <$> sales) ↔
        Exists (λ s, default today (Sale.localDate s) = date) sales ∧
        acc = Balance.mkAcc
                (Number (sum_sales whole_cost (on_date today date sales)))
                (Number (sum_sales whole_revenue (on_date today date sales)
                         - sum_sales whole_cost (on_date today date sales)))
                (Number (sum_sales whole_revenue (on_date today date sales)))) ∧
     (∀ date acc,
        (date, acc) ∈ Balance.grouped today (Balance.read <$> sales) →
        Balance.profit acc = (Balance.total acc - Balance.cost acc)%float) ∧
     (∀ sales',
        sales ≡ₚ sales' →
        Balance.grouped today (Balance.read <$> sales')
        = Balance.grouped today (Balance.read <$> sales))).
Proof.
  split_and!; [| | | | | |intros today sales Hw; split_and!].
  - intros today sales date acc. apply grouped_elem_of.
  - apply day_spec.
  - intros today sales. eapply StronglySorted_weaken; [|apply grouped_sorted].
    intros a b. unfold later. by rewrite ltb_strict.
  - intros today sales sales' Hperm.
    apply (StronglySorted_unique_strong (λ a b, strict String.le b a)).
    + intros x1 x2 _ _ H12 H21.
      destruct (irreflexivity (strict String.le) x1). by etrans.
    + eapply StronglySorted_fmap; [|apply grouped_sorted]. by intros x y.
    + eapply StronglySorted_fmap; [|apply grouped_sorted]. by intros x y.
    + apply NoDup_Permutation; [apply grouped_keys_NoDup..|].
      intros date. rewrite !list_elem_of_fmap.
      split; intros ([d acc] & -> & Hin); simpl;
        apply grouped_elem_of in Hin as [Hex _];
        eexists (_, _); (split; [reflexivity|]);
        apply grouped_elem_of; (split; [|reflexivity]).
      * by rewrite <- Hperm.
      * by rewrite Hperm.
  - intros today sales sales' Hsame. apply grouped_ext. intros date acc.
    rewrite !grouped_elem_of, !Exists_on_day. unfold row. by rewrite Hsame.
  - intros today today' sales Hall. unfold Balance.grouped. f_equal.
    generalize (@nil (string * Balance.Acc)).
    induction Hall as [|s sales Hs _ IH]; intros m; [done|]. simpl.
    by rewrite (step_today today today' m s Hs), IH.
  - intros date acc. by apply grouped_whole.
  - intros date acc [_ ->]%grouped_whole; [|done]. unfold whole_row. simpl.
    destruct Hw as [Hall Hvol].
    destruct (whole_on_date today date sales Hall) as (_ & ? & ? & ?).
    symmetry. apply Number_sub; lia.
  - intros sales' Hperm. by apply grouped_whole_Permutation.
Qed.

(** Two sales of one day with a sale of another day between them or
    before them: the sales of each day keep their order, and the balance is
    the same.  Three sales of whole amounts: the balance of the reversed
    list is the same. *)
Lemma C8_daily_balance_witness :
  let a := oneItem (Some "2024-05-01") 0x1.999999999999ap-4 in
  let b := oneItem (Some "2024-05-02") 0x1.999999999999ap-3 in
  let c := oneItem (Some "2024-05-01") 0x1.3333333333333p-2 in
  let sales :=
    [Sale.mk [SaleItem.mk "001" "Pan dulce" 2 150 (Some 100)] 300 None (Some "2024-05-01");
     Sale.mk [SaleItem.mk "PAN" "Pan" 1 800 (Some 0)] 800 None (Some "2024-05-02");
     Sale.mk [SaleItem.mk "001" "Pan dulce" 1 150 (Some 100)] 150 None (Some "2024-05-01")] in
  ((∀ date, on_day "2024-05-03" date [a; b; c] = on_day "2024-05-03" date [b; a; c]) ∧
   Balance.grouped "2024-05-03" [a; b; c] = Balance.grouped "2024-05-03" [b; a; c]) ∧
  (whole sales ∧
   Balance.grouped "2024-05-03" (Balance.read <$> reverse sales)
   = Balance.grouped "2024-05-03" (Balance.read <$> sales)).
Proof.
  intros a b c sales.
  assert (∀ date, on_day "2024-05-03" date [a; b; c]
                  = on_day "2024-05-03" date [b; a; c]) as Hsame.
  { intros date. subst a b c. unfold on_day, day_of, oneItem.
    rewrite !filter_cons, !filter_nil. simpl.
    repeat case_decide; congruence. }
  assert (whole sales) as Hw.
  { split; [|vm_compute; reflexivity].
    repeat (apply Forall_cons; split); try apply Forall_nil;
      unfold whole_item; simpl; lia. }
  split.
  - split; [exact Hsame|].
    exact (proj1 (proj2 (proj2 (proj2 (proj2 C8_daily_balance))))
             "2024-05-03" [a; b; c] [b; a; c] Hsame).
  - split; [exact Hw|].
    destruct (proj2 (proj2 (proj2 (proj2 (proj2 (proj2 C8_daily_balance)))))
                "2024-05-03" sales Hw) as (_ & _ & Hperm).
    apply Hperm. symmetry. apply reverse_Permutation.
Defined.

(** The balance is not a function of the list alone, it depends on the
    order of the list, and the profit of a row is not always its total minus
    its cost.  A sale without localDate is counted
    under the current day, so the same list gives another balance on
    another day.  The amounts are doubles: three sales of 0.1, 0.2 and 0.3
    on one day give a total of 0.6000000000000001 in this order and of 0.6
    in the reverse order.  And a sale of an item at 150 that cost 99.9 and
    an item at 0.1 that cost 0 has a profit of 50.199999999999996, while
    its total minus its cost is 50.19999999999999. *)
Lemma C8_counterexample :
  (let sale := oneItem None 800 in
   Balance.grouped "2024-05-01" [sale] = [("2024-05-01", Balance.mkAcc 0 800 800)] ∧
   Balance.grouped "2024-05-02" [sale] = [("2024-05-02", Balance.mkAcc 0 800 800)]) ∧
  (let day := Some "2024-05-01" in
   let sales := [oneItem day 0x1.999999999999ap-4; oneItem day 0x1.999999999999ap-3;
                 oneItem day 0x1.3333333333333p-2] in
   reverse sales ≡ₚ sales ∧
   Balance.grouped "2024-05-03" sales
   = [("2024-05-01",
       Balance.mkAcc 0 0x1.3333333333334p-1 0x1.3333333333334p-1)] ∧
   Balance.grouped "2024-05-03" (reverse sales)
   = [("2024-05-01",
       Balance.mkAcc 0 0x1.3333333333333p-1 0x1.3333333333333p-1)] ∧
   (0x1.3333333333333p-1 <? 0x1.3333333333334p-1)%float = true) ∧
  (∃ acc,
     Balance.grouped "2024-05-03"
       [Balance.mkDoc [Balance.mkItem 150 1 (Some 0x1.8f9999999999ap+6%float);
                       Balance.mkItem 0x1.999999999999ap-4 1 (Some 0%float)]
                      (Some "2024-05-01")]
     = [("2024-05-01", acc)] ∧
     (Balance.total acc - Balance.cost acc <? Balance.profit acc)%float = true).
Proof.
  cbv zeta. split; [split; reflexivity|]. split.
  - split; [apply reverse_Permutation|]. split_and!; reflexivity.
  - eexists. split; reflexivity.
Qed.

(** * Further properties of the code *)

(** ** When the checkout succeeds *)

Lemma map_throw_Forall {A B} (f : A → Err + B) l :
  Forall (λ x, ∃ y, f x = inr y) l → ∃ ys, map_throw f l = inr ys.
Proof.
  induction 1 as [|x l [y Hy] _ [ys IH]]; simpl; [by eexists|].
  rewrite Hy, IH. by eexists.
Qed.

Lemma itemForSale_ok db line :
  ¬ missing db line → ¬ short db line →
  ∃ item, itemForSale (entry (λ ref, products_col db !! ref) line) = inr item.
Proof.
  intros Hm Hs. rewrite itemForSale_entry. case_decide as Hp; [by eexists|].
  destruct (products_col db !! SaleItem.code line) as [p|] eqn:Hl.
  - case_bool_decide as Hq; [|by eexists]. destruct Hs. split; [done|]. eauto.
  - destruct Hm. by split.
Qed.

Lemma cobrar_valid_cart today userEmail db st :
  cart st ≠ [] →
  Forall (λ line, ¬ missing db line ∧ ¬ short db line) (cart st) →
  ∃ echo st' db', cobrar today userEmail db st = (inr echo, st', db').
Proof.
  intros Hne Hall. rewrite cobrar_unfold, decide_False by done. simpl.
  destruct (map_throw_Forall itemForSale
              (entry (λ ref, products_col db !! ref) <$> cart st)) as [ys ->].
  { apply Forall_fmap. eapply Forall_impl; [exact Hall|].
    intros line [Hm Hs]. by apply itemForSale_ok. }
  eauto.
Qed.

(** X1.  [cobrar] succeeds exactly on a cart that has a line and in which
    no tracked line names a missing product or asks for more than the store
    holds; the lines of bread never matter. *)
Theorem cobrar_succeeds_iff today userEmail db st :
  (∃ echo st' db', cobrar today userEmail db st = (inr echo, st', db')) ↔
  cart st ≠ [] ∧
  Forall (λ line, ¬ missing db line ∧ ¬ short db line) (cart st).
Proof.
  split.
  - intros (echo & st' & db' & Hc).
    apply cobrar_success in Hc as (items & Hne & _ & Hitems & _). split; [done|].
    apply Forall_forall. intros line [i Hi]%list_elem_of_lookup_1.
    destruct (Forall2_lookup_l _ _ _ _ _ Hitems Hi) as (item & _ & Hitem).
    split.
    + intros [Hp Hl]. apply itemForSale_tracked in Hitem as (p & Hget & _); [|done].
      congruence.
    + intros [Hp (p & Hl & Hq)].
      apply itemForSale_tracked in Hitem as (p' & Hget & Hle & _); [|done].
      assert (p' = p) as -> by congruence. lia.
  - intros [Hne Hall]. by apply cobrar_valid_cart.
Qed.

(** ** What the checkout does to the products *)

Lemma with_stock_with_stock s s' p :
  Product.with_stock s (Product.with_stock s' p) = Product.with_stock s p.
Proof. done. Qed.

(** The last stock update of a product is the one that stays. *)
Lemma updates_lookup get cart db id :
  products_col (foldl apply_write db (updates get cart)) !! id = products_col db !! id
  ∨ ∃ line p,
      line ∈ cart ∧ SaleItem.code line = id ∧ id ≠ PAN ∧ get id = Some p ∧
      products_col (foldl apply_write db (updates get cart)) !! id
      = Product.with_stock (Product.stock p - SaleItem.qty line) <$> products_col db !! id.
Proof.
  induction cart as [|x cart IH] using rev_ind; [by left|].
  assert (∀ line, line ∈ cart → line ∈ cart ++ [x]) as Hin.
  { intros line ?. apply elem_of_app. by left. }
  assert (x ∈ cart ++ [x]) as Hx.
  { apply elem_of_app. right. by apply list_elem_of_singleton. }
  rewrite updates_app, foldl_app.
  replace (updates get [x]) with (stockWrite (entry get x))
    by (unfold updates; simpl; by rewrite app_nil_r).
  rewrite stockWrite_entry.
  destruct (decide (SaleItem.code x ≠ PAN)) as [Hp|Hp];
    [destruct (get (SaleItem.code x)) as [p|] eqn:Hget|]; simpl.
  - destruct (decide (SaleItem.code x = id)) as [<-|Hne].
    + right. exists x, p. split_and!; [done..|].
      rewrite lookup_alter_eq.
      destruct IH as [->|(line & p' & _ & _ & _ & _ & ->)]; [done|].
      by destruct (products_col db !! SaleItem.code x).
    + rewrite lookup_alter_ne by done.
      destruct IH as [IH|(line & p' & ? & ? & ? & ? & IH)]; [by left|].
      right. exists line, p'. split_and!; auto.
  - destruct IH as [IH|(line & p' & ? & ? & ? & ? & IH)]; [by left|].
    right. exists line, p'. split_and!; auto.
  - destruct IH as [IH|(line & p' & ? & ? & ? & ? & IH)]; [by left|].
    right. exists line, p'. split_and!; auto.
Qed.

(** X2.  A successful checkout neither creates nor deletes a product, and
    changes nothing of a product but its stock; each document still carries
    its id in [code]. *)
Theorem cobrar_changes_only_stock today userEmail db st echo st' db' :
  cobrar today userEmail db st = (inr echo, st', db') →
  (∀ id, products_col db' !! id = None ↔ products_col db !! id = None) ∧
  (∀ id p p', products_col db !! id = Some p → products_col db' !! id = Some p' →
              Product.code p' = Product.code p ∧ Product.name p' = Product.name p ∧
              Product.cost p' = Product.cost p ∧ Product.margin p' = Product.margin p ∧
              Product.lowThreshold p' = Product.lowThreshold p) ∧
  (store_wf db → store_wf db').
Proof.
  intros Hc. apply cobrar_success in Hc as (items & _ & _ & _ & Hprod & _).
  assert (∀ id, products_col db' !! id = products_col db !! id
                ∨ ∃ s, products_col db' !! id
                       = Product.with_stock s <$> products_col db !! id) as Hl.
  { intros id. rewrite Hprod.
    destruct (updates_lookup (λ ref, products_col db !! ref) (cart st) db id)
      as [->|(line & p & _ & _ & _ & _ & ->)]; eauto. }
  split_and!.
  - intros id. destruct (Hl id) as [->|[s ->]]; [done|].
    by rewrite fmap_None.
  - intros id p p' Hp Hp'. destruct (Hl id) as [H|[s H]]; rewrite H, Hp in Hp'.
    + by simplify_eq.
    + by simplify_eq/=.
  - intros Hwf id p' Hp'. destruct (Hl id) as [H|[s H]]; rewrite H in Hp'.
    + by apply Hwf.
    + apply fmap_Some in Hp' as (p & Hp & ->). simpl. by apply Hwf.
Qed.

Lemma cobrar_changes_only_stock_witness :
  let db' := (cobrar "2024-05-01" "caja@pana.com" (dbA "Pan dulce") (cartA "Pan dulce")).2 in
  store_wf (dbA "Pan dulce") ∧ store_wf db'.
Proof.
  intros db'.
  assert (store_wf (dbA "Pan dulce")) as Hwf.
  { intros id p. unfold dbA; simpl. intros [<- <-]%lookup_singleton_Some. done. }
  split; [exact Hwf|].
  eapply (cobrar_changes_only_stock "2024-05-01" "caja@pana.com"
            (dbA "Pan dulce") (cartA "Pan dulce")); [|exact Hwf].
  vm_compute. reflexivity.
Defined.

(** X3.  A successful checkout leaves no stock below zero that was not
    below zero before, whatever the cart; and when the quantities of the
    cart are positive, as in every state the component can be in, no stock
    rises. *)
Theorem cobrar_stock_bounds today userEmail db st echo st' db' :
  cobrar today userEmail db st = (inr echo, st', db') →
  (∀ id p p', products_col db !! id = Some p → products_col db' !! id = Some p' →
              0 <= Product.stock p → 0 <= Product.stock p') ∧
  (Forall positive_qty (cart st) →
   ∀ id p p', products_col db !! id = Some p → products_col db' !! id = Some p' →
              Product.stock p' <= Product.stock p).
Proof.
  intros Hc. apply cobrar_success in Hc as (items & _ & _ & Hitems & Hprod & _).
  assert (∀ id p p', products_col db !! id = Some p → products_col db' !! id = Some p' →
            Product.stock p' = Product.stock p ∨
            ∃ line, line ∈ cart st ∧ SaleItem.qty line <= Product.stock p ∧
                    Product.stock p' = Product.stock p - SaleItem.qty line) as Hl.
  { intros id p p' Hp Hp'. rewrite Hprod in Hp'.
    destruct (updates_lookup (λ ref, products_col db !! ref) (cart st) db id)
      as [H|(line & q & Hin & Hcode & Hpan & Hget & H)]; rewrite H, Hp in Hp'.
    - left. by simplify_eq.
    - right. simplify_eq/=. exists line. split; [done|].
      pose proof Hin as [i Hi]%list_elem_of_lookup_1.
      destruct (Forall2_lookup_l _ _ _ _ _ Hitems Hi) as (item & _ & Hitem).
      apply itemForSale_tracked in Hitem as (q' & Hq' & Hle & _); [|done].
      simpl in Hq'. assert (q' = p) as -> by congruence. done. }
  split.
  - intros id p p' Hp Hp' Hpos.
    destruct (Hl id p p' Hp Hp') as [->|(line & _ & Hle & ->)]; lia.
  - intros Hqty id p p' Hp Hp'.
    destruct (Hl id p p' Hp Hp') as [->|(line & Hin & _ & ->)]; [lia|].
    rewrite Forall_forall in Hqty. specialize (Hqty _ Hin).
    unfold positive_qty in Hqty. lia.
Qed.

Lemma cobrar_stock_bounds_witness :
  let db := dbA "Pan dulce" in
  let db' := (cobrar "2024-05-01" "caja@pana.com" db (cartA "Pan dulce")).2 in
  ∃ p p', products_col db !! "001" = Some p ∧ products_col db' !! "001" = Some p' ∧
          0 <= Product.stock p ∧ 0 <= Product.stock p' <= Product.stock p.
Proof.
  intros db db'.
  exists (productA "Pan dulce"), (Product.with_stock 7 (productA "Pan dulce")).
  assert (products_col db !! "001" = Some (productA "Pan dulce")) as Hp
    by (vm_compute; reflexivity).
  assert (products_col db' !! "001"
          = Some (Product.with_stock 7 (productA "Pan dulce"))) as Hp'
    by (vm_compute; reflexivity).
  split; [exact Hp|]. split; [exact Hp'|]. split; [simpl; lia|].
  assert (∃ echo st', cobrar "2024-05-01" "caja@pana.com" db (cartA "Pan dulce")
                      = (inr echo, st', db')) as (echo & st' & Hc)
    by (do 2 eexists; vm_compute; reflexivity).
  destruct (cobrar_stock_bounds _ _ _ _ _ _ _ Hc) as [Hlow Hup]. split.
  - apply (Hlow "001" (productA "Pan dulce")); [exact Hp|exact Hp'|simpl; lia].
  - apply (Hup (reachable_positive _ (cartA_reachable "Pan dulce")) "001"
             (productA "Pan dulce")); [exact Hp|exact Hp'].
Defined.

(** ** The checks of the cart against an up-to-date catalog *)

Lemma qtyOnChange_checked ps idx value st st' :
  qtyOnChange ps idx value st = (None, st') →
  st' = st ∨
  ∃ i, cart st !! idx = Some i ∧
       st' = mkPOS (<[idx := SaleItem.with_qty (Z.max 1 value) i]> (cart st))
                   (undoStack st) ∧
       (SaleItem.code i ≠ PAN →
        ∀ prod, productsMap ps !! SaleItem.code i = Some prod →
                Z.max 1 value <= Product.stock prod).
Proof.
  unfold qtyOnChange. destruct (cart st !! idx) as [i|] eqn:Hi; [|intros [= <-]; by left].
  intros H. right. exists i. split; [done|].
  destruct (decide (SaleItem.code i ≠ PAN)) as [Hp|Hp].
  - destruct (productsMap ps !! SaleItem.code i) as [prod|] eqn:Hprod.
    + case_bool_decide as Hq; [done|]. split; [congruence|].
      intros _ prod' [= <-]. lia.
    + split; [congruence|]. by intros _ prod' [=].
  - split; [congruence|]. done.
Qed.

Lemma step_undo_entries ok st st' :
  step ok st st' →
  Forall (λ e, UndoEntry.type e = "add" ∧ 0 < UndoEntry.qty e) (undoStack st) →
  Forall (λ e, UndoEntry.type e = "add" ∧ 0 < UndoEntry.qty e) (undoStack st').
Proof.
  intros Hstep Hinv. destruct Hstep as
    [ps code qty st st' Hok Hpos Hadd | ps idx v st st' _ Hq | code st | st | st
    | precioFinal st | today userEmail db st sale st' db' Hc].
  - apply addByCode_success in Hadd as (prod & _ & _ & _ & -> & _).
    apply Forall_cons. by split.
  - by apply qtyOnChange_success in Hq as [->|(i & Hi & ->)].
  - done.
  - by apply Forall_nil.
  - pose proof (undo_cases st) as Hu. destruct (undoStack st) as [|last s] eqn:E.
    + by rewrite Hu, E.
    + destruct Hu as [-> _]. by apply Forall_cons in Hinv as [_ ?].
  - done.
  - apply cobrar_success_clears in Hc as ->. by apply Forall_nil.
Qed.

(** X4.  Every entry of the undo stack, in every state the component can
    be in, is an "add" entry with a positive quantity: [undo] always takes
    its "add" branch and never adds to a line. *)
Theorem undo_entries_are_adds st :
  reachable st →
  Forall (λ e, UndoEntry.type e = "add" ∧ 0 < UndoEntry.qty e) (undoStack st) ∧
  (∀ i, i ∈ cart (undo st) →
        i ∈ cart st ∨ ∃ i0, i0 ∈ cart st ∧ SaleItem.code i = SaleItem.code i0 ∧
                            0 < SaleItem.qty i < SaleItem.qty i0).
Proof.
  intros Hreach.
  assert (Forall (λ e, UndoEntry.type e = "add" ∧ 0 < UndoEntry.qty e) (undoStack st))
    as Hall.
  { revert st Hreach.
    apply (reachable_under_invariant _
             (λ st, Forall (λ e, UndoEntry.type e = "add" ∧ 0 < UndoEntry.qty e)
                           (undoStack st))).
    - by apply Forall_nil.
    - apply step_undo_entries. }
  split; [done|]. intros i Hi.
  pose proof (undo_cases st) as Hu. destruct (undoStack st) as [|last s].
  { rewrite Hu in Hi. by left. }
  apply Forall_cons in Hall as [[_ Hq] _].
  destruct Hu as [_ [Hu|[Hu|(idx & item & Hf & Hpos & Hu)]]]; rewrite Hu in Hi.
  - by left.
  - left. by apply list_elem_of_filter in Hi as [_ ?].
  - apply list_find_has_code in Hf as [Hl _].
    apply list_elem_of_lookup_1 in Hi as [j Hj].
    destruct (decide (j = idx)) as [->|Hne].
    + rewrite list_lookup_insert_eq in Hj by (by eapply lookup_lt_Some).
      right. exists item. simplify_eq/=. split_and!; [|done|lia..].
      by eapply list_elem_of_lookup_2.
    + rewrite list_lookup_insert_ne in Hj by done.
      left. by eapply list_elem_of_lookup_2.
Qed.

Lemma undo_entries_are_adds_witness :
  reachable (cartA "Pan dulce") ∧
  Forall (λ e, UndoEntry.type e = "add" ∧ 0 < UndoEntry.qty e)
         (undoStack (cartA "Pan dulce")).
Proof.
  split; [apply cartA_reachable|].
  exact (proj1 (undo_entries_are_adds _ (cartA_reachable "Pan dulce"))).
Defined.

Lemma step_fits m st st' :
  step (λ ps, productsMap ps = m) st st' →
  Forall (fits m) (cart st) ∧
  Forall (λ e, UndoEntry.type e = "add" ∧ 0 < UndoEntry.qty e) (undoStack st) →
  Forall (fits m) (cart st').
Proof.
  intros Hstep [Hinv Hundo]. destruct Hstep as
    [ps code qty st st' Hok Hpos Hadd | ps idx v st st' Hok Hq | code st | st | st
    | precioFinal st | today userEmail db st sale st' db' Hc].
  - apply addByCode_success in Hadd as (prod & Hp & Hcode & Hle & _ & Hcart).
    rewrite Hok in Hp.
    destruct Hcart as [(idx & it & Hf & ->)|[Hf ->]].
    + unfold existingQty in Hle. rewrite Hf in Hle.
      apply list_find_has_code in Hf as [Hl Hc].
      apply Forall_insert; [done|]. intros _. simpl. rewrite Hc. eauto.
    + unfold existingQty in Hle. rewrite Hf in Hle.
      apply Forall_cons. split; [|done]. intros _. simpl. rewrite Hcode.
      exists prod. split; [done|lia].
  - apply qtyOnChange_checked in Hq as [->|(i & Hi & -> & Hchk)]; [done|]. simpl.
    apply Forall_insert; [done|]. intros Hp. simpl.
    destruct (Forall_lookup_1 _ _ _ _ Hinv Hi Hp) as (p & Hm & _).
    exists p. split; [done|]. apply Hchk; [done|]. by rewrite Hok.
  - by apply Forall_filter_cart.
  - by apply Forall_nil.
  - pose proof (undo_cases st) as Hu. destruct (undoStack st) as [|last s].
    + by rewrite Hu.
    + apply Forall_cons in Hundo as [[_ Hq] _].
      destruct Hu as [_ [->|[->|(idx & item & Hf & Hpos & ->)]]]; [done| |].
      * by apply Forall_filter_cart.
      * apply list_find_has_code in Hf as [Hl _].
        apply Forall_insert; [done|]. intros Hp. simpl.
        destruct (Forall_lookup_1 _ _ _ _ Hinv Hl Hp) as (p & Hm & Hle).
        exists p. split; [done|lia].
  - unfold onAdd; simpl. apply Forall_cons. split; [|done]. by intros [].
  - apply cobrar_success_clears in Hc as ->. by apply Forall_nil.
Qed.

(** X5.  When every catalog snapshot the handlers saw shows the products
    as the store holds them at checkout, the checks of the handlers are
    enough: the checkout of a cart with a line succeeds. *)
Theorem cobrar_succeeds_on_fresh_catalog today userEmail db st :
  reachable_under (λ ps, productsMap ps = products_col db) st →
  cart st ≠ [] →
  ∃ echo db', cobrar today userEmail db st = (inr echo, mkPOS [] [], db').
Proof.
  intros Hreach Hne.
  assert (Forall (fits (products_col db)) (cart st) ∧
          Forall (λ e, UndoEntry.type e = "add" ∧ 0 < UndoEntry.qty e) (undoStack st))
    as [Hfits _].
  { revert st Hreach Hne.
    cut (∀ st, reachable_under (λ ps, productsMap ps = products_col db) st →
               Forall (fits (products_col db)) (cart st) ∧
               Forall (λ e, UndoEntry.type e = "add" ∧ 0 < UndoEntry.qty e)
                      (undoStack st)); [by auto|].
    apply reachable_under_invariant.
    - split; by apply Forall_nil.
    - intros st st' Hstep Hinv. split.
      + by eapply step_fits.
      + eapply step_undo_entries; [exact Hstep|]. by destruct Hinv. }
  destruct (cobrar_valid_cart today userEmail db st Hne) as (echo & st' & db' & Hc).
  { eapply Forall_impl; [exact Hfits|].
    intros line Hfit. split.
    - intros [Hp Hl]. destruct (Hfit Hp) as (p & Hm & _). congruence.
    - intros [Hp (p & Hl & Hq)]. destruct (Hfit Hp) as (p' & Hm & Hle).
      assert (p' = p) as -> by congruence. lia. }
  pose proof (cobrar_success_clears _ _ _ _ _ _ _ Hc) as ->. eauto.
Qed.

Lemma cobrar_succeeds_on_fresh_catalog_witness :
  let db := dbA "Pan dulce" in
  let st := cartA "Pan dulce" in
  reachable_under (λ ps, productsMap ps = products_col db) st ∧ cart st ≠ [] ∧
  ∃ echo db', cobrar "2024-05-01" "caja@pana.com" db st = (inr echo, mkPOS [] [], db').
Proof.
  intros db st.
  assert (reachable_under (λ ps, productsMap ps = products_col db) st) as Hreach.
  { eapply rtc_l; [|apply rtc_refl].
    eapply (step_addByCode _ [productA "Pan dulce"] "001" 3); [|lia|].
    - reflexivity.
    - vm_compute. reflexivity. }
  assert (cart st ≠ []) as Hne by done.
  split; [exact Hreach|]. split; [exact Hne|].
  exact (cobrar_succeeds_on_fresh_catalog "2024-05-01" "caja@pana.com" db st Hreach Hne).
Defined.

(** ** The catalog snapshot and the store *)

Lemma productsMap_lookup_NoDup ps p :
  NoDup (Product.code <$> ps) → p ∈ ps → productsMap ps !! Product.code p = Some p.
Proof.
  induction ps as [|q ps IH] using rev_ind; [by intros _ ?%elem_of_nil|].
  rewrite fmap_app, productsMap_snoc. simpl.
  intros (Hps & Hq & _)%NoDup_app [Hin|Hin]%elem_of_app;
    [|apply list_elem_of_singleton in Hin as ->].
  - rewrite lookup_insert_ne; [by apply IH|].
    intros Heq. apply (Hq (Product.code p)).
    + apply list_elem_of_fmap. eauto.
    + rewrite Heq. by left.
  - by rewrite lookup_insert_eq.
Qed.

Lemma docs_elem_of db p :
  p ∈ docs db ↔ ∃ id, products_col db !! id = Some p.
Proof.
  unfold docs. rewrite list_elem_of_fmap. split.
  - intros ([id q] & -> & Hin%elem_of_map_to_list). eauto.
  - intros [id Hid]. exists (id, p). split; [done|]. by apply elem_of_map_to_list.
Qed.

Lemma docs_codes_NoDup db : store_wf db → NoDup (Product.code <$> docs db).
Proof.
  intros Hwf. unfold docs.
  assert (Product.code <$> (map_to_list (products_col db)).*2
          = (map_to_list (products_col db)).*1) as ->.
  { rewrite <- list_fmap_compose. apply list_fmap_ext.
    intros i [id p] Hi%list_elem_of_lookup_2%elem_of_map_to_list. simpl.
    by apply Hwf. }
  apply NoDup_fst_map_to_list.
Qed.

(** X6.  When every product document carries its id in [code], the map that
    [POSTab] builds from the array of [useProducts] is the collection itself,
    in whatever order the array comes: a code is found in the catalog
    exactly when the store has it, with the same document. *)
Theorem productsMap_of_snapshot localeCompare db :
  store_wf db →
  useProducts localeCompare db ≡ₚ docs db ∧
  (∀ products, products ≡ₚ docs db → productsMap products = products_col db) ∧
  productsMap (useProducts localeCompare db) = products_col db.
Proof.
  intros Hwf.
  assert (∀ products, products ≡ₚ docs db → productsMap products = products_col db)
    as Hmap.
  { intros ps Hperm. apply map_eq. intros k.
    destruct (products_col db !! k) as [p|] eqn:Hk.
    - rewrite <- (Hwf _ _ Hk). apply productsMap_lookup_NoDup.
      + rewrite Hperm. by apply docs_codes_NoDup.
      + rewrite Hperm. apply docs_elem_of. eauto.
    - apply productsMap_None, Forall_forall. intros p Hp Hc.
      rewrite Hperm in Hp. apply docs_elem_of in Hp as [id Hid].
      rewrite (Hwf _ _ Hid) in Hc. congruence. }
  split_and!; [apply sort_by_Permutation|done|].
  apply Hmap, sort_by_Permutation.
Qed.

Lemma productsMap_of_snapshot_witness :
  store_wf dbLow ∧
  productsMap (useProducts (λ a b, if String.ltb a b then -1 else 1) dbLow)
  = products_col dbLow.
Proof.
  assert (store_wf dbLow) as Hwf.
  { intros id p. unfold dbLow; simpl.
    intros [[<- <-]|[_ [<- <-]%lookup_singleton_Some]]%lookup_insert_Some; done. }
  split; [exact Hwf|].
  exact (proj2 (proj2 (productsMap_of_snapshot _ dbLow Hwf))).
Defined.

(** ** Editing a field of a product *)

(** X7.  [updateField] changes, in the document of the given code, the
    named field and nothing else, and leaves every other document and the
    sales alone; without such a document it writes nothing.  An emptied
    input stores 0: emptying the threshold of a product sets it to 0, and
    its row is then red only when the stock is 0 or less. *)
Theorem updateField_spec code field value db :
  sales_col (updateField code field value db) = sales_col db ∧
  (∀ id, id ≠ code →
         products_col (updateField code field value db) !! id = products_col db !! id) ∧
  (products_col db !! code = None → updateField code field value db = db) ∧
  (∀ p, products_col db !! code = Some p →
        ∃ p', products_col (updateField code field value db) !! code = Some p' ∧
              Product.code p' = Product.code p ∧ Product.name p' = Product.name p ∧
              Product.cost p'
              = (if field is f_cost then default 0 value else Product.cost p) ∧
              Product.margin p'
              = (if field is f_margin then default 0 value else Product.margin p) ∧
              Product.stock p'
              = (if field is f_stock then default 0 value else Product.stock p) ∧
              Product.lowThreshold p'
              = (if field is f_lowThreshold then Some (default 0 value)
                 else Product.lowThreshold p) ∧
              (field = f_lowThreshold → value = None →
               (rowLow p' ↔ Product.stock p <= 0))) ∧
  (store_wf db → store_wf (updateField code field value db)).
Proof.
  unfold updateField. simpl. split_and!.
  - done.
  - intros id Hne. by rewrite lookup_alter_ne.
  - intros Hnone. destruct db as [prods sales]. simpl in *. f_equal.
    apply map_eq. intros id. destruct (decide (code = id)) as [<-|Hne].
    + by rewrite lookup_alter_eq, Hnone.
    + by rewrite lookup_alter_ne.
  - intros p Hp. rewrite lookup_alter_eq, Hp. simpl. eexists. split; [done|].
    destruct field; simpl; split_and!; try done.
    intros _ ->. unfold rowLow. simpl. done.
  - intros Hwf id p'. simpl. destruct (decide (code = id)) as [<-|Hne].
    + rewrite lookup_alter_eq. intros (p & Hp & ->)%fmap_Some.
      rewrite <- (Hwf _ _ Hp). by destruct field.
    + rewrite lookup_alter_ne by done. apply Hwf.
Qed.

(** ** The list of the products with low stock *)

Lemma insert_by_sorted_key {A} (k : A → Z) x l :
  StronglySorted (λ a b, k a <= k b) l →
  StronglySorted (λ a b, k a <= k b) (Balance.insert_by (λ a b, k a - k b) x l).
Proof.
  induction 1 as [|y l Hl IH Hy]; simpl; [repeat constructor|].
  case_bool_decide as Hc.
  - constructor; [by constructor|]. constructor; [lia|].
    eapply Forall_impl; [exact Hy|]. intros z ?. simpl in *. lia.
  - constructor; [done|]. rewrite insert_by_Permutation.
    constructor; [lia|done].
Qed.

Lemma sort_by_sorted_key {A} (k : A → Z) l :
  StronglySorted (λ a b, k a <= k b) (Balance.sort_by (λ a b, k a - k b) l).
Proof.
  unfold Balance.sort_by. induction l as [|x l IH]; simpl; [constructor|].
  by apply insert_by_sorted_key.
Qed.

Lemma lowProducts_elem_of low arr p :
  p ∈ lowProducts low arr ↔
  p ∈ arr ∧ Product.stock p <= default low (Product.lowThreshold p).
Proof.
  unfold lowProducts. rewrite sort_by_Permutation, list_elem_of_filter.
  unfold threshold. tauto.
Qed.

(** X8.  The list of low stock holds exactly the products of the snapshot
    whose stock is at most their own threshold or, without one, the global
    threshold, each as often as in the snapshot, and it is ordered by
    stock minus threshold, the product furthest below its threshold
    first. *)
Theorem lowProducts_spec low arr :
  lowProducts low arr
  ≡ₚ filter (λ p, Product.stock p <= default low (Product.lowThreshold p)) arr ∧
  (∀ p, p ∈ lowProducts low arr ↔
        p ∈ arr ∧ Product.stock p <= default low (Product.lowThreshold p)) ∧
  StronglySorted
    (λ a b, Product.stock a - default low (Product.lowThreshold a)
            <= Product.stock b - default low (Product.lowThreshold b))
    (lowProducts low arr) ∧
  (arr = [] → lowProducts low arr = []).
Proof.
  unfold lowProducts. split_and!.
  - apply sort_by_Permutation.
  - intros p. unfold threshold. apply lowProducts_elem_of.
  - apply (sort_by_sorted_key
             (λ p, Product.stock p - default low (Product.lowThreshold p))).
  - by intros ->.
Qed.

(** X9.  Raising the global threshold never takes a product off the list
    of low stock, and a product with a threshold of its own is on the list
    or off it whatever the global threshold is. *)
Theorem lowProducts_monotone low low' arr p :
  (low <= low' → p ∈ lowProducts low arr → p ∈ lowProducts low' arr) ∧
  (is_Some (Product.lowThreshold p) →
   p ∈ lowProducts low arr ↔ p ∈ lowProducts low' arr).
Proof.
  rewrite !lowProducts_elem_of. split.
  - intros Hle [Hin Hp]. split; [done|].
    destruct (Product.lowThreshold p); simpl in *; lia.
  - intros [t Ht]. rewrite Ht. done.
Qed.

(** X10.  With a global threshold of at most 999999, every product on the
    list of low stock has a red row in the product table; a product without
    a threshold of its own has a red row as soon as its stock is at most
    999999, on the list or not. *)
Theorem lowProducts_rowLow low arr p :
  (low <= 999999 → p ∈ lowProducts low arr → rowLow p) ∧
  (Product.lowThreshold p = None → rowLow p ↔ Product.stock p <= 999999).
Proof.
  unfold rowLow. split.
  - intros Hlow [_ Hp]%lowProducts_elem_of.
    destruct (Product.lowThreshold p); simpl in *; lia.
  - by intros ->.
Qed.

Lemma lowProducts_rowLow_witness :
  let medialuna := Product.mk "002" "Medialuna" 40 100 20 None in
  5 <= 999999 ∧ (medialuna ∉ lowProducts 5 (docs dbLow)) ∧ rowLow medialuna.
Proof.
  intros medialuna. split; [lia|]. split.
  - rewrite lowProducts_elem_of. simpl. intros [_ H]. lia.
  - apply (proj2 (lowProducts_rowLow 5 (docs dbLow) medialuna)); [done|]. simpl. lia.
Defined.

(** ** What a scan adds to the cart *)

(** X11.  A successful [addByCode], for a code as the scanner passes it,
    raises the quantity that the cart holds for the code by the quantity
    asked for.  It changes no price in the cart: when the cart has a line of
    the code, the prices are the ones before, whatever the catalog says
    now; when it has none, the new line in front brings the price that
    [calcPrice] gives for the product of the catalog. *)
Theorem addByCode_adds products scan qty st st' :
  addByCode products (trim scan) qty st = (None, st') →
  existingQty (trim scan) (cart st') = existingQty (trim scan) (cart st) + qty ∧
  ((Exists (λ y, SaleItem.code y = trim scan) (cart st) ∧
    SaleItem.price <$> cart st' = SaleItem.price <$> cart st)
   ∨ (Forall (λ y, SaleItem.code y ≠ trim scan) (cart st) ∧
      ∃ prod, productsMap products !! trim scan = Some prod ∧
              SaleItem.price <$> cart st'
              = calcPrice (Product.cost prod) (Product.margin prod)
                :: (SaleItem.price <$> cart st))).
Proof.
  intros Hadd.
  apply addByCode_success in Hadd as (prod & Hp & Hcode & _ & _ & Hcart).
  rewrite trim_trim in *.
  destruct Hcart as [(idx & it & Hf & ->)|[Hf ->]].
  - split.
    + unfold existingQty. by rewrite (list_find_insert_first _ _ _ _ _ Hf), Hf.
    + left. pose proof Hf as (Hl & Hc & _)%list_find_Some. split.
      * apply Exists_exists. exists it. split; [|done].
        by eapply list_elem_of_lookup_2.
      * rewrite list_fmap_insert. simpl. apply list_insert_id.
        by rewrite list_lookup_fmap, Hl.
  - split.
    + unfold existingQty. rewrite Hf. simpl.
      rewrite decide_True by (unfold has_code; simpl; done). simpl. lia.
    + right. apply list_find_None in Hf. split; [done|]. by exists prod.
Qed.

Lemma addByCode_adds_witness :
  let products := [Product.mk "001" "Pan dulce" 100 100 10 None] in
  let st := cartA "Pan dulce" in
  calcPrice 100 100 = 200 ∧
  ∃ st', addByCode products (trim "001") 2 st = (None, st') ∧
         existingQty (trim "001") (cart st') = 5 ∧
         SaleItem.price <$> cart st' = [150].
Proof.
  intros products st. split; [reflexivity|].
  eexists. split; [vm_compute; reflexivity|].
  split; [|reflexivity].
  refine (proj1 (addByCode_adds products "001" 2 st _ _)).
  vm_compute. reflexivity.
Defined.

(** ** From the checkout to the balance *)

Lemma itemsForSale_sums db cart items :
  Forall2 (λ line item,
             itemForSale (entry (λ ref, products_col db !! ref) line) = inr item)
          cart items →
  sum_items whole_revenue (stamped <$> items) = sum_lines cart ∧
  sum_items whole_cost (stamped <$> items) = sum_items (cost_of_line db) cart.
Proof.
  induction 1 as [|line item cart items Hi _ [IHr IHc]]; [done|].
  rewrite fmap_cons. simpl. rewrite IHr, IHc.
  cut (whole_revenue (stamped item) = SaleItem.price line * SaleItem.qty line ∧
       whole_cost (stamped item) = cost_of_line db line); [lia|].
  unfold cost_of_line.
  destruct (decide (SaleItem.code line = PAN)) as [Hp|Hp].
  - apply itemForSale_PAN in Hi as ->; [|done].
    unfold whole_revenue, whole_cost. simpl. lia.
  - apply itemForSale_tracked in Hi as (p & Hg & _ & ->); [|done].
    rewrite Hg. unfold whole_revenue, whole_cost. simpl. lia.
Qed.

Lemma whole_tail sale before : whole (sale :: before) → whole before.
Proof.
  intros [[Hs Hall]%Forall_cons Hvol]. split; [done|].
  pose proof (sale_sums_bounds sale Hs). unfold volume in *. simpl in *. lia.
Qed.

(** X12.  A successful checkout adds one sale to the store, dated [today].
    Take the sales read before it and the sales read after it, the same and
    the new sale in any order, all of whole amounts.  The balance then has a
    row for [today] whose total is the one of that day before plus the total
    of the cart, and whose cost is the one before plus the cost, in the
    store, of the tracked lines (bread counts at cost 0); the rows of the
    other days are the ones before. *)
Theorem cobrar_then_balance today userEmail db st echo st' db' :
  cobrar today userEmail db st = (inr echo, st', db') →
  ∃ sale,
    sales_col db' = sales_col db ++ [sale] ∧
    ∀ clock before after,
      after ≡ₚ sale :: before → whole after →
      (∃ acc,
         (today, acc) ∈ Balance.grouped clock (Balance.read <$> after) ∧
         Balance.total acc
         = Number (sum_sales whole_revenue (on_date clock today before)
                   + sum_lines (cart st)) ∧
         Balance.cost acc
         = Number (sum_sales whole_cost (on_date clock today before)
                   + sum_items (cost_of_line db) (cart st))) ∧
      (∀ date acc,
         date ≠ today →
         (date, acc) ∈ Balance.grouped clock (Balance.read <$> after) ↔
         (date, acc) ∈ Balance.grouped clock (Balance.read <$> before)).
Proof.
  intros Hc. apply cobrar_success in Hc as (items & _ & _ & Hitems & _ & Hsales).
  apply itemsForSale_sums in Hitems as [Hrev Hcost].
  eexists. split; [exact Hsales|]. intros clock before after Hperm Hw.
  set (sale := saleDoc items (total (cart st)) today userEmail) in *.
  assert (whole (sale :: before)) as Hw' by (by eapply whole_Permutation).
  pose proof (whole_tail _ _ Hw') as Hwb.
  assert (∀ date f,
            sum_sales f (on_date clock date after)
            = (if decide (today = date) then sum_items f (stamped <$> items) else 0)
              + sum_sales f (on_date clock date before)) as Hsum.
  { intros date f. unfold on_date.
    rewrite (sum_sales_Permutation _ _ _ (filter_Permutation _ _ _ Hperm)).
    rewrite filter_cons. simpl. case_decide; simpl; lia. }
  split.
  - eexists. split.
    + apply grouped_whole; [done|]. split; [|reflexivity].
      rewrite Hperm. by apply Exists_cons_hd.
    + unfold whole_row. simpl. rewrite !Hsum, !decide_True by done.
      rewrite Hrev, Hcost. split; f_equal; lia.
  - intros date acc Hne. rewrite !grouped_whole by done.
    unfold whole_row. rewrite !Hsum, !decide_False by done.
    rewrite Hperm, Exists_cons. simpl.
    split; [intros [[?|?] ?]; [congruence|done]|intros [? ?]; eauto].
Qed.

Lemma cobrar_then_balance_witness :
  let db := dbA "Pan dulce" in
  ∃ sale,
    sales_col (cobrar "2024-05-01" "caja@pana.com" db (cartA "Pan dulce")).2
    = sales_col db ++ [sale] ∧
    whole [sale] ∧
    ∃ acc, ("2024-05-01", acc) ∈ Balance.grouped "2024-05-02" (Balance.read <$> [sale]) ∧
           Balance.total acc = 450%float ∧ Balance.cost acc = 300%float.
Proof.
  intros db.
  edestruct (cobrar_then_balance "2024-05-01" "caja@pana.com" db (cartA "Pan dulce"))
    as (sale & Hs & Hb).
  - vm_compute. reflexivity.
  - exists sale. split; [exact Hs|].
    assert (whole [sale]) as Hw.
    { vm_compute in Hs. injection Hs as <-. split; [|vm_compute; reflexivity].
      repeat (apply Forall_cons; split); try apply Forall_nil;
        unfold whole_item; simpl; lia. }
    split; [exact Hw|].
    destruct (Hb "2024-05-02" [] [sale] (reflexivity _) Hw)
      as [(acc & Hin & Ht & Hc) _].
    exists acc. split; [exact Hin|]. split; [exact Ht|exact Hc].
Defined.

(** ** Prices at the edges *)

(** Rounding the double of a whole number gives the number. *)
Lemma Math_round_Number a : Z.abs a < 2 ^ 53 → Math_round (Number a) = a.
Proof.
  intros Ha. unfold Math_round. rewrite Prim2SF_Number by done.
  destruct (decide (a = 0)) as [->|Ha0]; [done|].
  rewrite SFofZ_finite by done. cbv zeta.
  set (p := Z.to_pos (Z.abs a)).
  assert (Z.pos p < 2 ^ 53) as Hp by (unfold p; lia).
  pose proof (dn_le p Hp) as Hd.
  assert ((if (a <? 0)%Z then Z.neg (shiftl (53 - dn p) p)
           else Z.pos (shiftl (53 - dn p) p))
          = a * 2 ^ Z.of_nat (53 - dn p)) as ->.
  { assert (Z.pos p = Z.abs a) as Hpa by (unfold p; rewrite Z2Pos.id; lia).
    destruct (Z.ltb_spec a 0).
    - rewrite <- Pos2Z.opp_pos, shiftl_Z, Hpa, Z.abs_neq by lia. ring.
    - by rewrite shiftl_Z, Hpa, Z.abs_eq by lia. }
  case_bool_decide as He.
  - replace (53 - dn p)%nat with 0%nat by lia.
    replace (Z.of_nat (dn p) - 53) with 0 by lia. simpl. lia.
  - replace (- (Z.of_nat (dn p) - 53)) with (Z.of_nat (53 - dn p)) by lia.
    assert (0 < 2 ^ Z.of_nat (53 - dn p)) as Hpow by (apply Z.pow_pos_nonneg; lia).
    replace (2 * (a * 2 ^ Z.of_nat (53 - dn p)) + 2 ^ Z.of_nat (53 - dn p))
      with ((2 * a + 1) * 2 ^ Z.of_nat (53 - dn p)) by lia.
    rewrite Z.div_mul_cancel_r by lia.
    pose proof (Z.div_mod (2 * a + 1) 2 ltac:(lia)).
    pose proof (Z.mod_pos_bound (2 * a + 1) 2 ltac:(lia)). lia.
Qed.

(** Whatever a double is multiplied with, times 0 it rounds to 0. *)
Lemma Math_round_mul_0 x : Math_round (x * Number 0)%float = 0.
Proof.
  unfold Math_round.
  rewrite FloatAxioms.mul_spec, (Prim2SF_Number 0) by (simpl; lia).
  rewrite SFofZ_0. by destruct (FloatOps.Prim2SF x).
Qed.

(** X13.  With a margin of 0 a product sells at its cost, for every whole
    cost from 0 up to 2^53.  And as long as no price per kilo is set (it is
    0 until the settings are read), bread by weight is put into the cart at
    a price of 0, whatever it weighs. *)
Theorem prices_at_the_edges :
  (∀ cost, 0 <= cost < 2 ^ 53 → calcPrice cost 0 = cost) ∧
  (∀ p g st,
     0 < g →
     panConfirmar peso p g 0 st
     = mkPOS (SaleItem.mk PAN "Pan" 1 0 None :: cart st) (undoStack st)).
Proof.
  split.
  - intros cost Hc. unfold calcPrice. cbv zeta.
    change (1 + Number 0 / 100)%float with (Number 1).
    rewrite Number_mul by lia. rewrite Z.mul_1_r. apply Math_round_Number. lia.
  - intros p g st Hg. unfold panConfirmar, confirmar.
    rewrite bool_decide_true by lia. by rewrite Math_round_mul_0.
Qed.
